(** * DynamicMultiChannelSineGenerator (manual_sine_wave.py)

    A shallow embedding of the generator class: the object's attributes,
    the Python list objects they refer to (with their identity, since
    [get_channel_info] hands the lists themselves to the caller), the
    methods as computations over that state that either return or raise,
    and the numpy rendering of [generate_chunk] over an interface for
    float64 arithmetic. *)

From Stdlib Require Import ZArith QArith Reals Qreals Lia Lra String.
From Stdlib Require Import DecimalString.
From stdpp Require Import base list list_numbers.

Local Open Scope Z_scope.

(** ** Python values and list objects *)

(** The numbers kept in the two parameter lists: [440] is an int,
    [0.5] a float (a float is recorded by the rational it denotes). *)
Inductive pynum :=
| PyInt (z : Z)
| PyFloat (q : Q).

(** Exceptions the modelled methods can raise. *)
Inductive exn :=
| IndexError
| ValueError
| OverflowError.

Inductive outcome (A : Type) :=
| Return (a : A)
| Raise (e : exn).
Arguments Return {A} a.
Arguments Raise {A} e.

Module PyList.

(** [l[i]]: a negative index counts from the end, anything else out of
    range raises IndexError. *)
Definition getitem {A} (l : list A) (i : Z) : outcome A :=
  let n := Z.of_nat (length l) in
  let j := if i <? 0 then i + n else i in
  if (0 <=? j) && (j <? n)
  then match l !! Z.to_nat j with
       | Some x => Return x
       | None => Raise IndexError
       end
  else Raise IndexError.

(** [l[i] = x], in place. *)
Definition setitem {A} (l : list A) (i : Z) (x : A) : outcome (list A) :=
  let n := Z.of_nat (length l) in
  let j := if i <? 0 then i + n else i in
  if (0 <=? j) && (j <? n)
  then Return (<[Z.to_nat j := x]> l)
  else Raise IndexError.

(** [l[:n]]: a fresh list; a negative [n] drops the last [-n] items. *)
Definition slice_to {A} (l : list A) (n : Z) : list A :=
  if n <? 0
  then take (Z.to_nat (Z.of_nat (length l) + n)) l
  else take (Z.to_nat n) l.

(** [[x] * n]: empty when [n <= 0]. *)
Definition times {A} (x : A) (n : Z) : list A :=
  replicate (Z.to_nat n) x.

End PyList.

(** ** The generator object and its surroundings *)

(** Addresses of list objects. *)
Definition loc := nat.

(** The attributes of [self]. The lock and the thread are left out: every
    method body runs under the lock, so a method is one atomic step. *)
Record generator := mkGenerator {
  sample_rate : Z;
  is_playing : bool;
  num_channels : Z;
  frequencies : loc;
  amplitudes : loc;
  available_channels : Z
}.

(** The state a method runs in: the list objects by address, the
    generator, what was printed, and the answer the host gives to
    [sd.query_devices(kind='output')]['max_output_channels']
    ([None] when anything in the [try] body raises). *)
Record world := mkWorld {
  objs : list (list pynum);
  self : generator;
  stdout : list string;
  host : option Z
}.

(** A method: runs in a world, returns or raises, and leaves a world. *)
Definition py (A : Type) : Type := world -> outcome A * world.

Definition ret {A} (a : A) : py A := fun w => (Return a, w).

Definition bind {A B} (m : py A) (k : A -> py B) : py B :=
  fun w =>
    match m w with
    | (Return a, w') => k a w'
    | (Raise e, w') => (Raise e, w')
    end.

Declare Scope py_scope.
Delimit Scope py_scope with py.
Notation "x <- m ;; k" := (bind m (fun x => k))
  (at level 100, m at next level, right associativity) : py_scope.
Notation "m ;;; k" := (bind m (fun _ => k))
  (at level 100, right associativity) : py_scope.
Local Open Scope py_scope.

Definition lift {A} (o : outcome A) : py A := fun w => (o, w).

(** The list object at an address. *)
Definition deref (w : world) (r : loc) : list pynum :=
  default [] (objs w !! r).

(** A new list object; its address is the next free one. *)
Definition alloc (l : list pynum) : py loc :=
  fun w =>
    (Return (length (objs w)),
     mkWorld (objs w ++ [l]) (self w) (stdout w) (host w)).

(** [r[i]] for the list object at [r]. *)
Definition list_getitem (r : loc) (i : Z) : py pynum :=
  fun w => (PyList.getitem (deref w r) i, w).

(** [r[i] = x]: the object at [r] is changed in place. *)
Definition list_setitem (r : loc) (i : Z) (x : pynum) : py unit :=
  fun w =>
    match PyList.setitem (deref w r) i x with
    | Return l' =>
        (Return tt, mkWorld (<[r := l']> (objs w)) (self w) (stdout w) (host w))
    | Raise e => (Raise e, w)
    end.

Definition print (s : string) : py unit :=
  fun w => (Return tt, mkWorld (objs w) (self w) (stdout w ++ [s]) (host w)).

Definition get_self : py generator := fun w => (Return (self w), w).

Definition set_self (g : generator) : py unit :=
  fun w => (Return tt, mkWorld (objs w) g (stdout w) (host w)).

Definition set_num_channels (n : Z) : py unit :=
  g <- get_self ;;
  set_self (mkGenerator (sample_rate g) (is_playing g) n
              (frequencies g) (amplitudes g) (available_channels g)).

Definition set_frequencies (r : loc) : py unit :=
  g <- get_self ;;
  set_self (mkGenerator (sample_rate g) (is_playing g) (num_channels g)
              r (amplitudes g) (available_channels g)).

Definition set_amplitudes (r : loc) : py unit :=
  g <- get_self ;;
  set_self (mkGenerator (sample_rate g) (is_playing g) (num_channels g)
              (frequencies g) r (available_channels g)).

Definition set_available_channels (a : Z) : py unit :=
  g <- get_self ;;
  set_self (mkGenerator (sample_rate g) (is_playing g) (num_channels g)
              (frequencies g) (amplitudes g) a).

(** ** The methods *)

Definition fallback_message : string :=
  "Error querying audio devices. Falling back to 2 channels.".

(** [get_max_output_channels]: the device's maximum clamped by
    [num_channels]; any exception in the query is caught, a message is
    printed and 2 is returned. *)
Definition get_max_output_channels : py Z :=
  fun w =>
    match host w with
    | Some device_max => ret (Z.min device_max (num_channels (self w))) w
    | None => (print fallback_message ;;; ret 2) w
    end.

(** [set_channels]: two new lists of defaults, then the device query. *)
Definition set_channels (n : Z) : py unit :=
  set_num_channels n ;;;
  (fl <- alloc (PyList.times (PyInt 440) n) ;; set_frequencies fl) ;;;
  (al <- alloc (PyList.times (PyFloat (1 # 2)) n) ;; set_amplitudes al) ;;;
  (a <- get_max_output_channels ;; set_available_channels a).

(** [__init__]: the attributes that [set_channels] assigns do not exist
    before it runs, so what they hold here is never read. *)
Definition init (initial_channels rate : Z) (heap : list (list pynum))
    (out : list string) (dev : option Z) : outcome unit * world :=
  set_channels initial_channels
    (mkWorld heap (mkGenerator rate false 0 0%nat 0%nat 0) out dev).

Definition channel_in_range (channel : Z) (g : generator) : bool :=
  (0 <=? channel) && (channel <? num_channels g).

Definition set_frequency (channel : Z) (frequency : pynum) : py unit :=
  g <- get_self ;;
  if channel_in_range channel g
  then list_setitem (frequencies g) channel frequency
  else ret tt.

Definition set_amplitude (channel : Z) (amplitude : pynum) : py unit :=
  g <- get_self ;;
  if channel_in_range channel g
  then list_setitem (amplitudes g) channel amplitude
  else ret tt.

(** The dict returned by [get_channel_info]: a new dict whose two list
    entries are the generator's own list objects. *)
Record channel_info := mkInfo {
  info_num_channels : Z;
  info_available_channels : Z;
  info_frequencies : loc;
  info_amplitudes : loc
}.

Definition get_channel_info : py channel_info :=
  g <- get_self ;;
  ret (mkInfo (num_channels g) (available_channels g)
         (frequencies g) (amplitudes g)).

Definition update_channel (channel : Z) (frequency amplitude : option pynum)
    : py unit :=
  g <- get_self ;;
  if channel_in_range channel g
  then
    match frequency with
    | Some f => list_setitem (frequencies g) channel f
    | None => ret tt
    end ;;;
    match amplitude with
    | Some a => list_setitem (amplitudes g) channel a
    | None => ret tt
    end
  else ret tt.

(** [update_all_channels]: each given list is sliced (a new list object)
    and the attribute is rebound to the slice. *)
Definition update_all_channels (new_frequencies new_amplitudes : option (list pynum))
    : py unit :=
  match new_frequencies with
  | Some l =>
      g <- get_self ;;
      r <- alloc (PyList.slice_to l (num_channels g)) ;;
      set_frequencies r
  | None => ret tt
  end ;;;
  match new_amplitudes with
  | Some l =>
      g <- get_self ;;
      r <- alloc (PyList.slice_to l (num_channels g)) ;;
      set_amplitudes r
  | None => ret tt
  end.

(** What a caller holding a returned dict sees when it looks inside. *)
Definition read_info (w : world) (i : channel_info)
    : Z * Z * list pynum * list pynum :=
  (info_num_channels i, info_available_channels i,
   deref w (info_frequencies i), deref w (info_amplitudes i)).

(** ** Rendering *)

(** float64 arithmetic as numpy performs it: conversion of ints and of
    Python floats, product, quotient, [np.sin] and the constant [np.pi].
    [int_in_range z] says whether the Python int [z] converts to a
    float at all: Python raises OverflowError ("int too large to convert
    to float") when it does not. Ints below [2^53] always convert. *)
Class Float64 (num : Type) := {
  of_int : Z -> num;
  of_float : Q -> num;
  fmul : num -> num -> num;
  fdiv : num -> num -> num;
  fsin : num -> num;
  np_pi : num;
  int_in_range : Z -> bool;
  small_int_in_range : forall z : Z, Z.abs z < 2 ^ 53 -> int_in_range z = true
}.

(** The ints float64 takes: those that round to at most the largest
    finite double, [2^1024 - 2^971]. *)
Definition float64_int_limit : Z := 2 ^ 1024 - 2 ^ 970.

Definition float64_int_in_range (z : Z) : bool :=
  Z.abs z <? float64_int_limit.

Section Render.

Context {num : Type} `{Float64 num}.

(** The float a list entry stands for, when it has one; whether it has
    one is [in_range], and the loop asks through [as_float]. *)
Definition to_num (v : pynum) : num :=
  match v with
  | PyInt z => of_int z
  | PyFloat q => of_float q
  end.

(** A float is a float; an int must convert. *)
Definition in_range (v : pynum) : bool :=
  match v with
  | PyInt z => int_in_range z
  | PyFloat _ => true
  end.

(** A list entry taken into float arithmetic ([2 * np.pi * f],
    [a * array]): a float is taken as it is, an int is converted and
    raises OverflowError when it is too large. *)
Definition as_float (v : pynum) : outcome num :=
  if in_range v then Return (to_num v) else Raise OverflowError.

(** [np.arange(num_frames) / rate]: the frame indices are machine
    integers, and the rate is taken to be one. *)
Definition frame_times (num_frames rate : Z) : list num :=
  (fun k => fdiv (of_int k) (of_int rate)) <$> seqZ 0 num_frames.

(** [np.zeros((rows, cols))], a list of rows. *)
Definition np_zeros (rows cols : Z) : outcome (list (list num)) :=
  if (rows <? 0) || (cols <? 0)
  then Raise ValueError
  else Return (replicate (Z.to_nat rows) (replicate (Z.to_nat cols) (of_int 0))).

(** The sample of one channel at time [tk]:
    [a * np.sin(2 * np.pi * f * tk)], products taken left to right. *)
Definition sine_sample (a f : pynum) (tk : num) : num :=
  fmul (to_num a) (fsin (fmul (fmul (fmul (of_int 2) np_pi) (to_num f)) tk)).

(** [chunk[:, i] = col] *)
Definition set_column (i : nat) (col : list num) (chunk : list (list num))
    : list (list num) :=
  zip_with (fun row x => <[i := x]> row) chunk col.

(** The body of [for i in range(available_channels)], over the indices
    still to do. [amplitudes[i]] is read before [frequencies[i]]; the
    frequency enters float arithmetic in [2 * np.pi * frequencies[i]],
    the amplitude last, in the product with the array of sines. *)
Fixpoint fill_columns (g : generator) (t : list num) (todo : list Z)
    (chunk : list (list num)) : py (list (list num)) :=
  match todo with
  | [] => ret chunk
  | i :: rest =>
      a <- list_getitem (amplitudes g) i ;;
      f <- list_getitem (frequencies g) i ;;
      x <- lift (as_float f) ;;
      y <- lift (as_float a) ;;
      fill_columns g t rest
        (set_column (Z.to_nat i)
           ((fun tk => fmul y (fsin (fmul (fmul (fmul (of_int 2) np_pi) x) tk)))
              <$> t)
           chunk)
  end.

Definition generate_chunk (num_frames : Z) : py (list (list num)) :=
  g <- get_self ;;
  let t := frame_times num_frames (sample_rate g) in
  chunk <- lift (np_zeros num_frames (available_channels g)) ;;
  fill_columns g t (seqZ 0 (available_channels g)) chunk.

(** [outdata[:] = chunk] for an [outdata] with [channels] columns and as
    many rows as the chunk: same width, or a single column repeated
    across the row; other widths do not broadcast. *)
Definition assign_outdata (channels : Z) (width : Z) (chunk : list (list num))
    : outcome (list (list num)) :=
  if width =? channels then Return chunk
  else if width =? 1
  then Return ((fun row => row ≫= replicate (Z.to_nat channels)) <$> chunk)
  else Raise ValueError.

(** [audio_callback]: [channels] is the width of [outdata], [status] is
    [Some] text when a flag is set. The value returned is what
    [outdata] holds afterwards. *)
Definition audio_callback (channels frames : Z) (status : option string)
    : py (list (list num)) :=
  match status with
  | Some s => print s
  | None => ret tt
  end ;;;
  chunk <- generate_chunk frames ;;
  g <- get_self ;;
  lift (assign_outdata channels (available_channels g) chunk).

(** The sample at frame [f], channel [c] of a block. *)
Definition sample_at (chunk : list (list num)) (f c : nat) : option num :=
  row ← chunk !! f; row !! c.

End Render.

(** The real numbers as ideal float64 arithmetic: every int is a real,
    nothing overflows. *)
#[export] Instance real_arith : Float64 R := {|
  of_int := IZR;
  of_float := Q2R;
  fmul := Rmult;
  fdiv := Rdiv;
  fsin := sin;
  np_pi := PI;
  int_in_range := fun _ => true;
  small_int_in_range := fun _ _ => eq_refl
|}.

(** Unevaluated float64 expressions: rendering can be run and
    inspected. Ints convert as float64 has it. *)
Inductive fexpr :=
| FInt (z : Z)
| FFloat (q : Q)
| FMul (a b : fexpr)
| FDiv (a b : fexpr)
| FSin (a : fexpr)
| FPi.

#[export] Instance symbolic_arith : Float64 fexpr := {|
  of_int := FInt;
  of_float := FFloat;
  fmul := FMul;
  fdiv := FDiv;
  fsin := FSin;
  np_pi := FPi;
  int_in_range := float64_int_in_range;
  small_int_in_range := fun z Hz =>
    proj2 (Z.ltb_lt (Z.abs z) float64_int_limit)
          (Z.lt_trans (Z.abs z) (2 ^ 53) float64_int_limit Hz eq_refl)
|}.

Definition run {A} (m : py A) (w : world) : world := snd (m w).
Definition result {A} (m : py A) (w : world) : outcome A := fst (m w).

(** ** Well-formed stores *)

(** The two attributes refer to two different list objects that exist. *)
Definition heap_ok (w : world) : Prop :=
  frequencies (self w) <> amplitudes (self w) /\
  (frequencies (self w) < length (objs w))%nat /\
  (amplitudes (self w) < length (objs w))%nat.

(** Both lists have exactly [num_channels] entries. *)
Definition lengths_ok (w : world) : Prop :=
  Z.of_nat (length (deref w (frequencies (self w)))) = num_channels (self w) /\
  Z.of_nat (length (deref w (amplitudes (self w)))) = num_channels (self w).

(** The worlds a program can get to: construct a generator, then call
    its methods; meanwhile other text is printed and devices come and go. *)
Inductive reachable : world -> Prop :=
| reach_init n rate heap out dev :
    reachable (snd (init n rate heap out dev))
| reach_set_channels w n :
    reachable w -> reachable (run (set_channels n) w)
| reach_set_frequency w c f :
    reachable w -> reachable (run (set_frequency c f) w)
| reach_set_amplitude w c a :
    reachable w -> reachable (run (set_amplitude c a) w)
| reach_update_channel w c f a :
    reachable w -> reachable (run (update_channel c f a) w)
| reach_update_all_channels w fs amps :
    reachable w -> reachable (run (update_all_channels fs amps) w)
| reach_surroundings w out dev :
    reachable w -> reachable (mkWorld (objs w) (self w) out dev).

(** ** Two readings of the specification, to be compared with the code *)

(** "A report is a point-in-time copy": once a report is returned, a
    later [set_frequency] does not change what the report shows, and
    writing into the returned frequency list does not change the list the
    generator holds. *)
Definition info_is_snapshot : Prop :=
  forall (w : world) (i : channel_info),
    reachable w ->
    result get_channel_info w = Return i ->
    (forall c f, read_info (run (set_frequency c f) w) i = read_info w i) /\
    (forall c x,
       deref (run (list_setitem (info_frequencies i) c x) w)
             (frequencies (self w))
       = deref w (frequencies (self w))).

(** The sample the specification asks for at frame [f] of a block that
    starts at absolute frame [start], over the reals. *)
Definition claimed_sample (a fr : pynum) (start f rate : Z) : R :=
  (to_num a * sin (2 * PI * to_num fr * IZR (start + f) / IZR rate))%R.


(** ** What rendering needs of the lists *)

Section RenderConditions.

Context {num : Type} `{Float64 num}.

(** Every entry the loop of [generate_chunk] gets to convert is a float
    or an int that converts. *)
Definition entries_convert (w : world) : Prop :=
  forall (c : nat) (v : pynum),
    Z.of_nat c < available_channels (self w) ->
    deref w (amplitudes (self w)) !! c = Some v \/
    deref w (frequencies (self w)) !! c = Some v ->
    in_range v = true.

End RenderConditions.


(** A computation that writes list entries in place at most: the
    attributes, the addresses in use and the length of every list object
    stay as they are. *)
Definition keeps_shape {A} (m : py A) : Prop :=
  forall w : world,
    self (run m w) = self w /\
    length (objs (run m w)) = length (objs w) /\
    forall r : loc, length (deref (run m w) r) = length (deref w r).

(** A computation that prints nothing and leaves the device alone. *)
Definition keeps_surroundings {A} (m : py A) : Prop :=
  forall w : world,
    stdout (run m w) = stdout w /\ host (run m w) = host w.

(** A computation that changes list entries to values that satisfy [P]
    at most: every entry it leaves behind was there before, at the same
    place, or satisfies [P]. *)
Definition writes_within {A} (P : pynum -> Prop) (m : py A) : Prop :=
  forall (w : world) (r : loc) (i : nat) (v : pynum),
    deref (run m w) r !! i = Some v ->
    deref w r !! i = Some v \/ P v.

(** ** Playback: [start], [stop] and the thread between them *)

(** The controlling thread and the playback threads run interleaved.
    One step is one Python statement of [start], of [stop] or of the
    function [run] that [start] hands to the thread; a store method and
    an [audio_callback] are one step each, as they run under the lock.
    What the audio library does (whether opening the stream or sleeping
    raises, when it calls back, with how many frames) is an input of the
    step. *)

(** [self.is_playing = b] *)
Definition set_is_playing (b : bool) : py unit :=
  g <- get_self ;;
  set_self (mkGenerator (sample_rate g) b (num_channels g)
              (frequencies g) (amplitudes g) (available_channels g)).

(** Where a playback thread stands in the function [run] of [start].
    A thread that holds an open stream remembers the channel count the
    stream was opened with. *)
Inductive thread_pc :=
| AtOpen
| AtAnnounce (channels : Z)
| AtTest (channels : Z)
| AtSleep (channels : Z)
| AtExcept (message : string)
| AtFinally
| Finished.

(** Where the controlling thread stands: between calls, inside [start]
    after the test of [is_playing] and after the assignment to it, or
    inside [stop] after the assignment. *)
Inductive caller_pc :=
| Idle
| StartChecked
| StartFlagged
| Stopping.

(** The generator with its threads. [thread] is the attribute
    [self.thread]: the number of the thread created last, [None] before
    the first [start]. *)
Record player := mkPlayer {
  store : world;
  thread : option nat;
  threads : list thread_pc;
  caller : caller_pc
}.

(** A generator just constructed. *)
Definition new_player (initial_channels rate : Z) (heap : list (list pynum))
    (out : list string) (dev : option Z) : player :=
  mkPlayer (snd (init initial_channels rate heap out dev)) None [] Idle.

Definition alive (p : player) (t : nat) : Prop :=
  exists c : thread_pc, threads p !! t = Some c /\ c <> Finished.

Definition playing_message (channels : Z) : string :=
  String.append "Playing on "
    (String.append (NilZero.string_of_int (Z.to_int channels)) " channels").

Definition error_message (message : string) : string :=
  String.append "Error in audio stream: " message.

(** [start], statement by statement. *)
Definition start_test (p : player) : option player :=
  match caller p with
  | Idle =>
      if is_playing (self (store p))
      then Some (mkPlayer (run (print "Already playing") (store p))
                   (thread p) (threads p) Idle)
      else Some (mkPlayer (store p) (thread p) (threads p) StartChecked)
  | _ => None
  end.

Definition start_flag (p : player) : option player :=
  match caller p with
  | StartChecked =>
      Some (mkPlayer (run (set_is_playing true) (store p))
              (thread p) (threads p) StartFlagged)
  | _ => None
  end.

Definition start_spawn (p : player) : option player :=
  match caller p with
  | StartFlagged =>
      Some (mkPlayer (store p) (Some (length (threads p)))
              (threads p ++ [AtOpen]) Idle)
  | _ => None
  end.

(** [stop]: the assignment, then the join, which returns when there is
    no thread or the thread has finished. *)
Definition stop_flag (p : player) : option player :=
  match caller p with
  | Idle =>
      Some (mkPlayer (run (set_is_playing false) (store p))
              (thread p) (threads p) Stopping)
  | _ => None
  end.

Definition stop_join (p : player) : option player :=
  match caller p with
  | Stopping =>
      match thread p with
      | None => Some (mkPlayer (store p) (thread p) (threads p) Idle)
      | Some t =>
          match threads p !! t with
          | Some Finished =>
              Some (mkPlayer (store p) (thread p) (threads p) Idle)
          | _ => None
          end
      end
  | _ => None
  end.

(** One statement of thread [t]. [raises] says whether the library call
    made at this point ([sd.OutputStream(...)] on entry, [sd.sleep] in
    the loop) raises an exception, and with what text. *)
Definition thread_step (t : nat) (raises : option string) (p : player)
    : option player :=
  let goto c w := Some (mkPlayer w (thread p) (<[t := c]> (threads p)) (caller p)) in
  match threads p !! t with
  | Some AtOpen =>
      match raises with
      | None => goto (AtAnnounce (available_channels (self (store p)))) (store p)
      | Some message => goto (AtExcept message) (store p)
      end
  | Some (AtAnnounce ch) =>
      goto (AtTest ch)
        (run (print (playing_message (available_channels (self (store p)))))
             (store p))
  | Some (AtTest ch) =>
      if is_playing (self (store p))
      then goto (AtSleep ch) (store p)
      else goto AtFinally (store p)
  | Some (AtSleep ch) =>
      match raises with
      | None => goto (AtTest ch) (store p)
      | Some message => goto (AtExcept message) (store p)
      end
  | Some (AtExcept message) =>
      goto AtFinally (run (print (error_message message)) (store p))
  | Some AtFinally =>
      goto Finished (run (set_is_playing false) (store p))
  | Some Finished => None
  | None => None
  end.

(** The methods the controlling thread can call between [start] and
    [stop]. *)
Inductive method :=
| SetChannels (n : Z)
| SetFrequency (c : Z) (f : pynum)
| SetAmplitude (c : Z) (a : pynum)
| UpdateChannel (c : Z) (fo ao : option pynum)
| UpdateAllChannels (fo ao : option (list pynum))
| GetChannelInfo.

Definition method_body (m : method) : py unit :=
  match m with
  | SetChannels n => set_channels n
  | SetFrequency c f => set_frequency c f
  | SetAmplitude c a => set_amplitude c a
  | UpdateChannel c fo ao => update_channel c fo ao
  | UpdateAllChannels fo ao => update_all_channels fo ao
  | GetChannelInfo => get_channel_info ;;; ret tt
  end.

Definition call (m : method) (p : player) : option player :=
  match caller p with
  | Idle =>
      Some (mkPlayer (run (method_body m) (store p))
              (thread p) (threads p) Idle)
  | _ => None
  end.

Inductive action :=
| DoStartTest
| DoStartFlag
| DoStartSpawn
| DoStopFlag
| DoStopJoin
| DoCall (m : method)
| DoStep (t : nat) (raises : option string)
| DoCallback (t : nat) (frames : Z) (status : option string).

Section Driver.

Context {num : Type} `{Float64 num}.

(** The audio library calling [audio_callback] for the stream thread [t]
    holds open. *)
Definition callback (t : nat) (frames : Z) (status : option string)
    (p : player) : option player :=
  let serve ch :=
    Some (mkPlayer (run (audio_callback (num := num) ch frames status) (store p))
            (thread p) (threads p) (caller p)) in
  match threads p !! t with
  | Some (AtAnnounce ch) => serve ch
  | Some (AtTest ch) => serve ch
  | Some (AtSleep ch) => serve ch
  | _ => None
  end.

(** One step of the whole, [None] when the step cannot be taken. *)
Definition do (a : action) (p : player) : option player :=
  match a with
  | DoStartTest => start_test p
  | DoStartFlag => start_flag p
  | DoStartSpawn => start_spawn p
  | DoStopFlag => stop_flag p
  | DoStopJoin => stop_join p
  | DoCall m => call m p
  | DoStep t raises => thread_step t raises p
  | DoCallback t frames status => callback t frames status p
  end.

(** The configurations a program gets to, however the threads are
    scheduled. *)
Inductive playing : player -> Prop :=
| playing_new n rate heap out dev :
    playing (new_player n rate heap out dev)
| playing_do p a p' :
    playing p -> do a p = Some p' -> playing p'.

End Driver.

(** Thread [t] taking one statement after another, with the answers of
    the library in [raises]; a finished thread stays finished. *)
Fixpoint thread_steps (t : nat) (raises : list (option string)) (p : player)
    : player :=
  match raises with
  | [] => p
  | r :: rest =>
      match thread_step t r p with
      | Some p' => thread_steps t rest p'
      | None => thread_steps t rest p
      end
  end.

(** What holds of every configuration: [self.thread] names a thread,
    no other thread is alive, and [is_playing] fits where the
    controlling thread stands. *)
Definition driver_inv (p : player) : Prop :=
  (forall t, thread p = Some t -> (t < length (threads p))%nat) /\
  (forall t, alive p t -> thread p = Some t) /\
  match caller p with
  | Idle => is_playing (self (store p)) = true <-> exists t, alive p t
  | StartChecked =>
      is_playing (self (store p)) = false /\ forall t, ~ alive p t
  | StartFlagged =>
      is_playing (self (store p)) = true /\ forall t, ~ alive p t
  | Stopping => is_playing (self (store p)) = false
  end.

(** A schedule: the steps taken one after another, [None] as soon as
    one of them cannot be taken. *)
Fixpoint exec {num : Type} `{Float64 num} (schedule : list action)
    (p : player) : option player :=
  match schedule with
  | [] => Some p
  | a :: rest =>
      match do (num := num) a p with
      | Some p' => exec rest p'
      | None => None
      end
  end.

(** ** Basic facts about list objects *)

Lemma deref_alloc_old (w : world) (l : list pynum) (r : loc) :
  (r < length (objs w))%nat -> deref (run (alloc l) w) r = deref w r.
Proof.
  intros Hr. unfold deref, run, alloc; simpl.
  by rewrite lookup_app_l.
Qed.

Lemma deref_alloc_new (w : world) (l : list pynum) :
  deref (run (alloc l) w) (length (objs w)) = l.
Proof.
  unfold deref, run, alloc; simpl.
  rewrite lookup_app_r by lia. by rewrite Nat.sub_diag.
Qed.

Lemma getitem_in_range {A} (l : list A) (i : Z) (x : A) :
  0 <= i -> l !! Z.to_nat i = Some x -> PyList.getitem l i = Return x.
Proof.
  intros Hi Hx. unfold PyList.getitem.
  pose proof (lookup_lt_Some _ _ _ Hx) as Hlt.
  destruct (i <? 0) eqn:E; [lia|].
  destruct ((0 <=? i) && (i <? Z.of_nat (length l))) eqn:E2.
  - by rewrite Hx.
  - apply andb_false_iff in E2 as [E2|E2]; lia.
Qed.

Lemma getitem_past_end {A} (l : list A) (i : Z) :
  Z.of_nat (length l) <= i -> PyList.getitem l i = Raise IndexError.
Proof.
  intros Hi. unfold PyList.getitem.
  destruct (i <? 0) eqn:E; [lia|].
  destruct ((0 <=? i) && (i <? Z.of_nat (length l))) eqn:E2; [|done].
  apply andb_true_iff in E2 as [_ E2]; lia.
Qed.

Lemma setitem_in_range {A} (l : list A) (i : Z) (x : A) :
  0 <= i < Z.of_nat (length l) ->
  PyList.setitem l i x = Return (<[Z.to_nat i := x]> l).
Proof.
  intros Hi. unfold PyList.setitem.
  destruct (i <? 0) eqn:E; [lia|].
  destruct ((0 <=? i) && (i <? Z.of_nat (length l))) eqn:E2; [done|].
  apply andb_false_iff in E2 as [E2|E2]; lia.
Qed.

Lemma setitem_past_end {A} (l : list A) (i : Z) (x : A) :
  Z.of_nat (length l) <= i -> PyList.setitem l i x = Raise IndexError.
Proof.
  intros Hi. unfold PyList.setitem.
  destruct (i <? 0) eqn:E; [lia|].
  destruct ((0 <=? i) && (i <? Z.of_nat (length l))) eqn:E2; [|done].
  apply andb_true_iff in E2 as [_ E2]; lia.
Qed.

Lemma channel_in_range_true (c : Z) (g : generator) :
  channel_in_range c g = true <-> 0 <= c < num_channels g.
Proof. unfold channel_in_range. rewrite andb_true_iff. lia. Qed.

Lemma channel_in_range_false (c : Z) (g : generator) :
  channel_in_range c g = false <-> ~ (0 <= c < num_channels g).
Proof. unfold channel_in_range. rewrite andb_false_iff. lia. Qed.

(** ** Out-of-range channel indices *)

(** C7. For a channel index outside [0, num_channels), negative ones
    included, [set_frequency], [set_amplitude] and [update_channel]
    return without raising and leave the whole state as it was, so
    [get_channel_info] reports what it reported before. *)
Theorem out_of_range_channel_is_noop (w : world) (c : Z) (f a : pynum)
    (fo ao : option pynum) :
  ~ (0 <= c < num_channels (self w)) ->
  set_frequency c f w = (Return tt, w) /\
  set_amplitude c a w = (Return tt, w) /\
  update_channel c fo ao w = (Return tt, w) /\
  (forall w', w' = run (set_frequency c f) w \/
              w' = run (set_amplitude c a) w \/
              w' = run (update_channel c fo ao) w ->
     get_channel_info w' = get_channel_info w /\
     read_info w' (mkInfo (num_channels (self w')) (available_channels (self w'))
                     (frequencies (self w')) (amplitudes (self w')))
     = read_info w (mkInfo (num_channels (self w)) (available_channels (self w))
                     (frequencies (self w)) (amplitudes (self w)))).
Proof.
  intros Hc. apply channel_in_range_false in Hc.
  assert (H1 : set_frequency c f w = (Return tt, w))
    by (unfold set_frequency, bind, get_self; by rewrite Hc).
  assert (H2 : set_amplitude c a w = (Return tt, w))
    by (unfold set_amplitude, bind, get_self; by rewrite Hc).
  assert (H3 : update_channel c fo ao w = (Return tt, w))
    by (unfold update_channel, bind, get_self; by rewrite Hc).
  repeat split; try assumption;
    destruct H as [-> | [-> | ->]]; unfold run;
    rewrite ?H1, ?H2, ?H3; reflexivity.
Qed.

Lemma out_of_range_channel_is_noop_witness :
  let w := snd (init 4 44100 [] [] (Some 16)) in
  set_frequency (-1) (PyInt 880) w = (Return tt, w) /\
  set_amplitude 4 (PyFloat (4 # 5)) w = (Return tt, w).
Proof.
  split.
  - apply (out_of_range_channel_is_noop
             (snd (init 4 44100 [] [] (Some 16))) (-1)
             (PyInt 880) (PyFloat (4 # 5)) None None).
    simpl. lia.
  - apply (out_of_range_channel_is_noop
             (snd (init 4 44100 [] [] (Some 16))) 4
             (PyInt 880) (PyFloat (4 # 5)) None None).
    simpl. lia.
Defined.

(** ** Channel resolution and reconfiguration *)

(** What [set_channels] leaves behind, written out. *)
Lemma set_channels_unfold (w : world) (n : Z) :
  set_channels n w =
  (Return tt,
   mkWorld
     ((objs w ++ [PyList.times (PyInt 440) n])
        ++ [PyList.times (PyFloat (1 # 2)) n])
     (mkGenerator (sample_rate (self w)) (is_playing (self w)) n
        (length (objs w))
        (length (objs w ++ [PyList.times (PyInt 440) n]))
        (match host w with
         | Some device_max => Z.min device_max n
         | None => 2
         end))
     (match host w with
      | Some _ => stdout w
      | None => stdout w ++ [fallback_message]
      end)
     (host w)).
Proof. destruct w as [h g out [d|]]; reflexivity. Qed.

Lemma set_channels_heap_ok (w : world) (n : Z) :
  heap_ok (run (set_channels n) w).
Proof.
  unfold run. rewrite set_channels_unfold. unfold heap_ok; simpl.
  rewrite !length_app; simpl. lia.
Qed.

Lemma set_channels_frequencies (w : world) (n : Z) :
  let w' := run (set_channels n) w in
  deref w' (frequencies (self w')) = replicate (Z.to_nat n) (PyInt 440).
Proof.
  unfold run. rewrite set_channels_unfold. unfold deref; simpl.
  rewrite lookup_app_l by (rewrite length_app; simpl; lia).
  rewrite lookup_app_r by lia. by rewrite Nat.sub_diag.
Qed.

Lemma set_channels_amplitudes (w : world) (n : Z) :
  let w' := run (set_channels n) w in
  deref w' (amplitudes (self w')) = replicate (Z.to_nat n) (PyFloat (1 # 2)).
Proof.
  unfold run. rewrite set_channels_unfold. unfold deref; simpl.
  rewrite lookup_app_r by lia. by rewrite Nat.sub_diag.
Qed.

(** C8. When the device query fails, [get_max_output_channels] returns 2
    and prints the warning, whatever [num_channels] is; it returns
    normally, and so does [set_channels], which stores the 2. *)
Theorem query_failure_falls_back_to_two (w : world) :
  host w = None ->
  get_max_output_channels w =
    (Return 2,
     mkWorld (objs w) (self w) (stdout w ++ [fallback_message]) (host w)) /\
  (forall n : Z,
     result (set_channels n) w = Return tt /\
     available_channels (self (run (set_channels n) w)) = 2 /\
     stdout (run (set_channels n) w) = stdout w ++ [fallback_message]).
Proof.
  intros Hhost. split.
  - destruct w as [h g out d]; simpl in Hhost; subst d. reflexivity.
  - intros n. unfold result, run. rewrite set_channels_unfold; simpl.
    rewrite Hhost. done.
Qed.

Lemma query_failure_falls_back_to_two_witness :
  let w := mkWorld [] (mkGenerator 44100 false 16 0%nat 0%nat 0) [] None in
  get_max_output_channels w =
    (Return 2,
     mkWorld (objs w) (self w) (stdout w ++ [fallback_message]) (host w)) /\
  available_channels (self (run (set_channels 16) w)) = 2.
Proof.
  destruct (query_failure_falls_back_to_two
              (mkWorld [] (mkGenerator 44100 false 16 0%nat 0%nat 0) [] None)
              eq_refl) as [H1 H2].
  split; [exact H1 | apply (H2 16)].
Defined.

(** C9. [set_channels m] returns normally; afterwards [num_channels] is
    [m], the frequency list is [m] copies of 440 and the amplitude list
    [m] copies of 0.5 (none when [m] is negative), and with a device that
    reports [device_max] the available count is [min m device_max], which
    is at most [m]. *)
Theorem set_channels_resets (heap : list (list pynum)) (g : generator)
    (out : list string) (dev : option Z) (m : Z) :
  let w := mkWorld heap g out dev in
  let w' := run (set_channels m) w in
  result (set_channels m) w = Return tt /\
  num_channels (self w') = m /\
  deref w' (frequencies (self w')) = replicate (Z.to_nat m) (PyInt 440) /\
  deref w' (amplitudes (self w')) = replicate (Z.to_nat m) (PyFloat (1 # 2)) /\
  length (deref w' (frequencies (self w'))) = Z.to_nat m /\
  length (deref w' (amplitudes (self w'))) = Z.to_nat m /\
  match dev with
  | Some device_max =>
      available_channels (self w') = Z.min m device_max /\
      available_channels (self w') <= m
  | None => available_channels (self w') = 2
  end.
Proof.
  intros w w'.
  pose proof (set_channels_frequencies w m) as Hf.
  pose proof (set_channels_amplitudes w m) as Ha.
  fold w' in Hf, Ha. simpl in Hf, Ha.
  repeat split.
  - unfold result. by rewrite set_channels_unfold.
  - unfold w', run. by rewrite set_channels_unfold.
  - exact Hf.
  - exact Ha.
  - rewrite Hf. apply length_replicate.
  - rewrite Ha. apply length_replicate.
  - unfold w', run. rewrite set_channels_unfold; simpl.
    destruct dev as [d|]; [|done]. split; lia.
Qed.

(** With a device that answers, and a count that is not negative, the
    available count stays within the configured one. *)
Lemma set_channels_available_bounds (w : world) (m device_max : Z) :
  host w = Some device_max -> 0 <= m -> 0 <= device_max ->
  0 <= available_channels (self (run (set_channels m) w)) <= m.
Proof.
  intros Hh Hm Hd. unfold run. rewrite set_channels_unfold; simpl.
  rewrite Hh. lia.
Qed.

Lemma set_channels_lengths_ok (w : world) (m : Z) :
  0 <= m -> lengths_ok (run (set_channels m) w).
Proof.
  intros Hm. unfold lengths_ok.
  pose proof (set_channels_frequencies w m) as Hf.
  pose proof (set_channels_amplitudes w m) as Ha.
  simpl in Hf, Ha. rewrite Hf, Ha, !length_replicate.
  unfold run. rewrite set_channels_unfold; simpl. lia.
Qed.

(** C3. Constructing a generator with one channel while the device query
    fails leaves [available_channels] at 2, above [num_channels]: the
    fallback is not clamped the way the answer of the device is. *)
Theorem fallback_exceeds_num_channels :
  let w := snd (init 1 44100 [] [] None) in
  fst (init 1 44100 [] [] None) = Return tt /\
  num_channels (self w) = 1 /\
  available_channels (self w) = 2 /\
  ~ (0 <= available_channels (self w) <= num_channels (self w)) /\
  available_channels (self (run (set_channels 1) w)) = 2 /\
  result (generate_chunk (num := fexpr) 256) w = Raise IndexError.
Proof. vm_compute. repeat split; try reflexivity. intros [_ H]. by apply H. Qed.

(** ** Writing one channel *)

Lemma deref_insert_same (h : list (list pynum)) (g : generator)
    (out : list string) (d : option Z) (r : loc) (l : list pynum) :
  (r < length h)%nat -> deref (mkWorld (<[r := l]> h) g out d) r = l.
Proof. intros Hr. unfold deref; simpl. by rewrite list_lookup_insert_eq. Qed.

Lemma deref_insert_other (h : list (list pynum)) (g : generator)
    (out : list string) (d : option Z) (r r' : loc) (l : list pynum) :
  r <> r' ->
  deref (mkWorld (<[r := l]> h) g out d) r' = deref (mkWorld h g out d) r'.
Proof. intros Hr. unfold deref; simpl. by rewrite list_lookup_insert_ne. Qed.

Lemma list_setitem_returns (w : world) (r : loc) (i : Z) (x : pynum) :
  0 <= i < Z.of_nat (length (deref w r)) ->
  list_setitem r i x w =
  (Return tt,
   mkWorld (<[r := <[Z.to_nat i := x]> (deref w r)]> (objs w))
     (self w) (stdout w) (host w)).
Proof.
  intros Hi. unfold list_setitem. by rewrite setitem_in_range.
Qed.

Lemma list_setitem_raises (w : world) (r : loc) (i : Z) (x : pynum) :
  Z.of_nat (length (deref w r)) <= i ->
  list_setitem r i x w = (Raise IndexError, w).
Proof.
  intros Hi. unfold list_setitem. by rewrite setitem_past_end.
Qed.

Lemma set_frequency_unfold (w : world) (c : Z) (f : pynum) :
  set_frequency c f w =
  if channel_in_range c (self w)
  then list_setitem (frequencies (self w)) c f w
  else (Return tt, w).
Proof.
  unfold set_frequency, bind, get_self.
  by destruct (channel_in_range c (self w)).
Qed.

Lemma set_amplitude_unfold (w : world) (c : Z) (a : pynum) :
  set_amplitude c a w =
  if channel_in_range c (self w)
  then list_setitem (amplitudes (self w)) c a w
  else (Return tt, w).
Proof.
  unfold set_amplitude, bind, get_self.
  by destruct (channel_in_range c (self w)).
Qed.

(** A write through [set_frequency] at an index the list has. *)
Lemma set_frequency_writes_entry (w : world) (c : Z) (f : pynum) :
  (frequencies (self w) < length (objs w))%nat ->
  0 <= c < num_channels (self w) ->
  c < Z.of_nat (length (deref w (frequencies (self w)))) ->
  set_frequency c f w =
  (Return tt,
   mkWorld
     (<[frequencies (self w)
        := <[Z.to_nat c := f]> (deref w (frequencies (self w)))]> (objs w))
     (self w) (stdout w) (host w)).
Proof.
  intros Hf Hc Hlen. rewrite set_frequency_unfold.
  rewrite (proj2 (channel_in_range_true c (self w))) by lia.
  apply list_setitem_returns. lia.
Qed.

(** On a store of two distinct lists of [num_channels] entries each
    and for a channel [c] in [0, num_channels), [set_frequency c f]
    returns, and [get_channel_info] then reports [f] at [c], every other
    frequency as before, and the amplitudes, [num_channels] and
    [available_channels] as before. *)
Lemma set_frequency_reported (w : world) (c : Z) (f : pynum) :
  heap_ok w ->
  lengths_ok w ->
  0 <= c < num_channels (self w) ->
  exists (w' : world) (i : channel_info),
    set_frequency c f w = (Return tt, w') /\
    get_channel_info w' = (Return i, w') /\
    PyList.getitem (deref w' (info_frequencies i)) c = Return f /\
    (forall k : nat,
       k <> Z.to_nat c ->
       deref w' (info_frequencies i) !! k
       = deref w (frequencies (self w)) !! k) /\
    length (deref w' (info_frequencies i))
    = length (deref w (frequencies (self w))) /\
    deref w' (info_amplitudes i) = deref w (amplitudes (self w)) /\
    info_num_channels i = num_channels (self w) /\
    info_available_channels i = available_channels (self w).
Proof.
  intros (Hne & Hf & Ha) [Hlen _] Hc.
  eexists _, _. split.
  { apply set_frequency_writes_entry; [assumption | assumption | lia]. }
  split; [reflexivity|]. simpl.
  rewrite deref_insert_same by assumption.
  rewrite deref_insert_other by assumption.
  repeat split.
  - apply getitem_in_range; [lia|].
    apply list_lookup_insert_eq. lia.
  - intros k Hk. by rewrite list_lookup_insert_ne.
  - apply length_insert.
Qed.

Lemma set_frequency_reported_on_defaults :
  let w := snd (init 4 44100 [] [] (Some 16)) in
  exists (w' : world) (i : channel_info),
    set_frequency 2 (PyInt 880) w = (Return tt, w') /\
    get_channel_info w' = (Return i, w') /\
    PyList.getitem (deref w' (info_frequencies i)) 2 = Return (PyInt 880).
Proof.
  destruct (set_frequency_reported
              (snd (init 4 44100 [] [] (Some 16))) 2 (PyInt 880))
    as (w' & i & H1 & H2 & H3 & _).
  - unfold heap_ok; simpl. lia.
  - unfold lengths_ok; simpl. lia.
  - simpl. lia.
  - exists w', i. auto.
Defined.

(** The same call on a list that has lost entry [c] raises instead. *)
Lemma set_frequency_short_list (w : world) (c : Z) (f : pynum) :
  0 <= c < num_channels (self w) ->
  Z.of_nat (length (deref w (frequencies (self w)))) <= c ->
  set_frequency c f w = (Raise IndexError, w).
Proof.
  intros Hc Hlen. rewrite set_frequency_unfold.
  rewrite (proj2 (channel_in_range_true c (self w))) by lia.
  by apply list_setitem_raises.
Qed.

(** ** Replacing whole lists *)

Lemma update_all_channels_unfold (w : world) (fo ao : option (list pynum)) :
  let n := num_channels (self w) in
  let h1 := match fo with
            | Some l => objs w ++ [PyList.slice_to l n]
            | None => objs w
            end in
  let h2 := match ao with
            | Some l => h1 ++ [PyList.slice_to l n]
            | None => h1
            end in
  update_all_channels fo ao w =
  (Return tt,
   mkWorld h2
     (mkGenerator (sample_rate (self w)) (is_playing (self w)) n
        (match fo with
         | Some _ => length (objs w)
         | None => frequencies (self w)
         end)
        (match ao with
         | Some _ => length h1
         | None => amplitudes (self w)
         end)
        (available_channels (self w)))
     (stdout w) (host w)).
Proof. destruct w as [h [] out d], fo, ao; reflexivity. Qed.

(** The stored frequency list after [update_all_channels] is the slice of
    the input, whatever its length. *)
Lemma update_all_channels_frequencies (w : world) (l : list pynum)
    (ao : option (list pynum)) :
  let w' := run (update_all_channels (Some l) ao) w in
  deref w' (frequencies (self w')) = PyList.slice_to l (num_channels (self w)) /\
  num_channels (self w') = num_channels (self w) /\
  available_channels (self w') = available_channels (self w).
Proof.
  unfold run. rewrite update_all_channels_unfold. unfold deref; simpl.
  repeat split.
  destruct ao; simpl.
  - rewrite lookup_app_l by (rewrite length_app; simpl; lia).
    rewrite lookup_app_r by lia. by rewrite Nat.sub_diag.
  - rewrite lookup_app_r by lia. by rewrite Nat.sub_diag.
Qed.


(** An input of at least [num_channels] entries is cut to the first
    [num_channels]. *)
Lemma slice_to_long {A} (l : list A) (n : Z) :
  0 <= n <= Z.of_nat (length l) ->
  PyList.slice_to l n = take (Z.to_nat n) l /\
  Z.of_nat (length (PyList.slice_to l n)) = n.
Proof.
  intros Hn. unfold PyList.slice_to.
  destruct (n <? 0) eqn:E; [lia|]. split; [done|].
  rewrite length_take. lia.
Qed.

(** A shorter input is kept as it is. *)
Lemma slice_to_short {A} (l : list A) (n : Z) :
  Z.of_nat (length l) <= n -> PyList.slice_to l n = l.
Proof.
  intros Hn. unfold PyList.slice_to.
  destruct (n <? 0) eqn:E; [lia|].
  apply take_ge. lia.
Qed.

(** C2. Four channels, then [update_all_channels(frequencies=[200])]:
    the stored frequency list becomes the one-entry list [[200]]; the
    entries at indices 1 to 3 are gone and the list no longer has
    [num_channels] entries. *)
Theorem update_all_channels_short_input :
  let w := snd (init 4 44100 [] [] (Some 16)) in
  let w' := run (update_all_channels (Some [PyInt 200]) None) w in
  deref w (frequencies (self w)) = [PyInt 440; PyInt 440; PyInt 440; PyInt 440] /\
  result (update_all_channels (Some [PyInt 200]) None) w = Return tt /\
  num_channels (self w') = 4 /\
  deref w' (frequencies (self w')) = [PyInt 200] /\
  deref w' (frequencies (self w'))
    <> [PyInt 200; PyInt 440; PyInt 440; PyInt 440] /\
  Z.of_nat (length (deref w' (frequencies (self w')))) <> num_channels (self w') /\
  result (set_frequency 2 (PyInt 880)) w' = Raise IndexError.
Proof. simpl. repeat split; try reflexivity; intros ?; discriminate. Qed.

(** C6. A channel in [0, num_channels) need not be in the frequency
    list. After [update_all_channels] has stored a frequency list [l]
    of at most [c] entries, with [c] below [num_channels],
    [set_frequency c f] raises IndexError and changes nothing, and
    [get_channel_info] goes on to report the list [l], which has no
    entry at [c]: the frequency [f] is not reported. The state this
    happens in is one the methods lead to. *)
Theorem set_frequency_after_short_update (w : world) (l : list pynum)
    (other : option (list pynum)) (c : Z) (f : pynum) :
  reachable w ->
  Z.of_nat (length l) <= c < num_channels (self w) ->
  let w' := run (update_all_channels (Some l) other) w in
  reachable w' /\
  0 <= c < num_channels (self w') /\
  set_frequency c f w' = (Raise IndexError, w') /\
  exists i : channel_info,
    get_channel_info w' = (Return i, w') /\
    deref w' (info_frequencies i) = l /\
    PyList.getitem (deref w' (info_frequencies i)) c = Raise IndexError.
Proof.
  intros Hw Hc w'.
  destruct (update_all_channels_frequencies w l other) as (Hf & Hnum & _).
  fold w' in Hf, Hnum. rewrite slice_to_short in Hf by lia.
  split; [by apply reach_update_all_channels|].
  split; [lia|]. split.
  - apply set_frequency_short_list; [lia|]. rewrite Hf. lia.
  - eexists. split; [reflexivity|]. simpl. rewrite Hf.
    split; [reflexivity|]. apply getitem_past_end. lia.
Qed.

Lemma set_frequency_after_short_update_witness :
  let w := run (update_all_channels (Some [PyInt 200]) None)
               (snd (init 4 44100 [] [] (Some 16))) in
  num_channels (self w) = 4 /\
  set_frequency 2 (PyInt 880) w = (Raise IndexError, w) /\
  exists i : channel_info,
    get_channel_info w = (Return i, w) /\
    deref w (info_frequencies i) = [PyInt 200].
Proof.
  destruct (set_frequency_after_short_update
              (snd (init 4 44100 [] [] (Some 16))) [PyInt 200] None
              2 (PyInt 880))
    as (_ & _ & Hset & i & Hinfo & Hl & _).
  - apply reach_init.
  - simpl. lia.
  - split; [reflexivity|]. split; [exact Hset|].
    exists i. by split.
Defined.

(** ** Reachable stores keep their two lists apart *)

Lemma keeps_shape_ret {A} (a : A) : keeps_shape (ret a).
Proof. by intros w. Qed.

Lemma keeps_shape_bind {A B} (m : py A) (k : A -> py B) :
  keeps_shape m -> (forall a, keeps_shape (k a)) -> keeps_shape (bind m k).
Proof.
  intros Hm Hk w. specialize (Hm w). unfold run, bind in *.
  destruct (m w) as [[a|e] w1]; simpl in *; [|exact Hm].
  destruct Hm as (Hs & Hl & Hd).
  destruct (Hk a w1) as (Hs' & Hl' & Hd'). unfold run in *.
  rewrite Hs', Hl', Hs, Hl. repeat split.
  intros r. by rewrite Hd', Hd.
Qed.

Lemma keeps_shape_list_setitem (r : loc) (i : Z) (x : pynum) :
  keeps_shape (list_setitem r i x).
Proof.
  intros w. unfold run, list_setitem, PyList.setitem.
  destruct ((0 <=? _) && (_ <? _)); simpl; [|done].
  rewrite length_insert. repeat split.
  intros r'. unfold deref; simpl.
  destruct (decide (r = r')) as [<-|Hne].
  - destruct (objs w !! r) as [l|] eqn:E.
    + rewrite list_lookup_insert_eq by (by eapply lookup_lt_Some).
      simpl. by rewrite length_insert.
    + rewrite list_insert_ge by (by apply lookup_ge_None).
      by rewrite E.
  - by rewrite list_lookup_insert_ne.
Qed.

Lemma keeps_shape_set_frequency (c : Z) (f : pynum) :
  keeps_shape (set_frequency c f).
Proof.
  apply keeps_shape_bind; [by intros w|]. intros g.
  destruct (channel_in_range c g);
    [apply keeps_shape_list_setitem | apply keeps_shape_ret].
Qed.

Lemma keeps_shape_set_amplitude (c : Z) (a : pynum) :
  keeps_shape (set_amplitude c a).
Proof.
  apply keeps_shape_bind; [by intros w|]. intros g.
  destruct (channel_in_range c g);
    [apply keeps_shape_list_setitem | apply keeps_shape_ret].
Qed.

Lemma keeps_shape_update_channel (c : Z) (fo ao : option pynum) :
  keeps_shape (update_channel c fo ao).
Proof.
  apply keeps_shape_bind; [by intros w|]. intros g.
  destruct (channel_in_range c g); [|apply keeps_shape_ret].
  apply keeps_shape_bind.
  - destruct fo; [apply keeps_shape_list_setitem | apply keeps_shape_ret].
  - intros _.
    destruct ao; [apply keeps_shape_list_setitem | apply keeps_shape_ret].
Qed.

(** Writes in place keep a store of the data model one. *)
Lemma keeps_shape_store {A} (m : py A) (w : world) :
  keeps_shape m ->
  (heap_ok w -> heap_ok (run m w)) /\
  (lengths_ok w -> lengths_ok (run m w)).
Proof.
  intros Hm. destruct (Hm w) as (Hs & Hl & Hd).
  unfold heap_ok, lengths_ok. rewrite Hs, Hl, !Hd. done.
Qed.

Lemma update_all_channels_heap_ok (w : world) (fo ao : option (list pynum)) :
  heap_ok w -> heap_ok (run (update_all_channels fo ao) w).
Proof.
  intros (Hne & Hf & Ha). unfold run.
  rewrite update_all_channels_unfold. unfold heap_ok; simpl.
  destruct fo, ao; simpl; rewrite ?length_app; simpl; lia.
Qed.

Lemma reachable_heap_ok (w : world) : reachable w -> heap_ok w.
Proof.
  induction 1 as [n rate heap out dev | w n _ _ | w c f _ IH | w c a _ IH
                 | w c fo ao _ IH | w fs amps _ IH | w out dev _ IH].
  - apply (set_channels_heap_ok
             (mkWorld heap (mkGenerator rate false 0 0%nat 0%nat 0) out dev)).
  - apply set_channels_heap_ok.
  - by apply keeps_shape_store; [apply keeps_shape_set_frequency|].
  - by apply keeps_shape_store; [apply keeps_shape_set_amplitude|].
  - by apply keeps_shape_store; [apply keeps_shape_update_channel|].
  - by apply update_all_channels_heap_ok.
  - exact IH.
Qed.

(** [update_all_channels] keeps the lengths when what it is given has at
    least [num_channels] entries. *)
Lemma update_all_channels_lengths_ok (w : world)
    (fo ao : option (list pynum)) :
  heap_ok w -> lengths_ok w ->
  (forall l, fo = Some l -> num_channels (self w) <= Z.of_nat (length l)) ->
  (forall l, ao = Some l -> num_channels (self w) <= Z.of_nat (length l)) ->
  lengths_ok (run (update_all_channels fo ao) w).
Proof.
  intros (Hne & Hf & Ha) [Hlf Hla] Hfo Hao.
  assert (0 <= num_channels (self w)) as Hn by lia.
  unfold run. rewrite update_all_channels_unfold.
  unfold lengths_ok, deref in *; simpl.
  destruct fo as [lf|], ao as [la|]; simpl.
  - rewrite lookup_app_l by (rewrite length_app; simpl; lia).
    rewrite !lookup_app_r by lia. rewrite !Nat.sub_diag; simpl.
    split; apply slice_to_long; split; auto.
  - rewrite lookup_app_r by lia. rewrite Nat.sub_diag; simpl.
    rewrite lookup_app_l by lia.
    split; [apply slice_to_long; split; auto | assumption].
  - rewrite (lookup_app_l _ _ (frequencies (self w))) by lia.
    rewrite lookup_app_r by lia. rewrite Nat.sub_diag; simpl.
    split; [assumption | apply slice_to_long; split; auto].
  - by split.
Qed.

(** ** What a returned report is *)

Lemma get_channel_info_unfold (w : world) :
  get_channel_info w =
  (Return (mkInfo (num_channels (self w)) (available_channels (self w))
             (frequencies (self w)) (amplitudes (self w))), w).
Proof. reflexivity. Qed.

Lemma read_info_after_alloc (w : world) (i : channel_info)
    (more : list (list pynum)) (g : generator) (out : list string)
    (d : option Z) :
  (info_frequencies i < length (objs w))%nat ->
  (info_amplitudes i < length (objs w))%nat ->
  read_info (mkWorld (objs w ++ more) g out d) i = read_info w i.
Proof.
  intros Hf Ha. unfold read_info, deref; simpl.
  by rewrite !lookup_app_l by assumption.
Qed.

(** C4, as the code has it. The dict returned by [get_channel_info] holds
    the counts of the moment and the generator's own two list objects.
    So a later [set_frequency] or [set_amplitude] that writes an entry
    shows in a report returned earlier, and a write into a returned list
    is a write into the generator's list. Only the methods that put new
    lists in place, [set_channels] and [update_all_channels], leave an
    earlier report as it was. *)
Theorem get_channel_info_shares_lists (w : world) :
  heap_ok w ->
  exists i : channel_info,
    get_channel_info w = (Return i, w) /\
    info_num_channels i = num_channels (self w) /\
    info_available_channels i = available_channels (self w) /\
    info_frequencies i = frequencies (self w) /\
    info_amplitudes i = amplitudes (self w) /\
    (forall c f,
       0 <= c < num_channels (self w) ->
       c < Z.of_nat (length (deref w (frequencies (self w)))) ->
       deref (run (set_frequency c f) w) (info_frequencies i)
       = <[Z.to_nat c := f]> (deref w (frequencies (self w)))) /\
    (forall c a,
       0 <= c < num_channels (self w) ->
       c < Z.of_nat (length (deref w (amplitudes (self w)))) ->
       deref (run (set_amplitude c a) w) (info_amplitudes i)
       = <[Z.to_nat c := a]> (deref w (amplitudes (self w)))) /\
    (forall c x,
       0 <= c < Z.of_nat (length (deref w (frequencies (self w)))) ->
       deref (run (list_setitem (info_frequencies i) c x) w)
             (frequencies (self w))
       = <[Z.to_nat c := x]> (deref w (frequencies (self w)))) /\
    (forall n, read_info (run (set_channels n) w) i = read_info w i) /\
    (forall fo ao,
       read_info (run (update_all_channels fo ao) w) i = read_info w i).
Proof.
  intros (Hne & Hf & Ha).
  eexists. split; [apply get_channel_info_unfold|]. simpl.
  repeat split.
  - intros c f Hc Hlen. unfold run. rewrite set_frequency_unfold.
    rewrite (proj2 (channel_in_range_true c (self w))) by lia.
    rewrite list_setitem_returns by lia. simpl.
    by apply deref_insert_same.
  - intros c a Hc Hlen. unfold run. rewrite set_amplitude_unfold.
    rewrite (proj2 (channel_in_range_true c (self w))) by lia.
    rewrite list_setitem_returns by lia. simpl.
    by apply deref_insert_same.
  - intros c x Hc. unfold run.
    rewrite list_setitem_returns by lia. simpl.
    by apply deref_insert_same.
  - intros n. unfold run. rewrite set_channels_unfold; simpl.
    rewrite <- app_assoc. by apply read_info_after_alloc.
  - intros fo ao. unfold run. rewrite update_all_channels_unfold; simpl.
    destruct fo, ao; simpl; rewrite <- ?app_assoc;
      try (by apply read_info_after_alloc).
    by destruct w.
Qed.

Lemma get_channel_info_shares_lists_witness :
  let w := snd (init 4 44100 [] [] (Some 16)) in
  exists i : channel_info,
    get_channel_info w = (Return i, w) /\
    deref (run (set_frequency 0 (PyInt 880)) w) (info_frequencies i)
    = [PyInt 880; PyInt 440; PyInt 440; PyInt 440].
Proof.
  destruct (get_channel_info_shares_lists (snd (init 4 44100 [] [] (Some 16))))
    as (i & H1 & _ & _ & _ & _ & H2 & _).
  - unfold heap_ok; simpl. lia.
  - exists i. split; [exact H1|].
    rewrite (H2 0 (PyInt 880)); [reflexivity | simpl; lia | simpl; lia].
Defined.

(** C4, as the specification has it, fails: after a generator of four
    channels is built and its report taken, [set_frequency(0, 880)]
    changes the frequencies the report shows. *)
Lemma info_is_not_a_snapshot : ~ info_is_snapshot.
Proof.
  intros H.
  destruct (H (snd (init 4 44100 [] [] (Some 16)))
              (mkInfo 4 4 0%nat 1%nat)
              (reach_init 4 44100 [] [] (Some 16)) eq_refl) as [H1 _].
  specialize (H1 0 (PyInt 880)). vm_compute in H1. discriminate H1.
Qed.

(** ** Rendering one block *)

Lemma getitem_returns_lookup {A} (l : list A) (i : Z) (x : A) :
  0 <= i -> PyList.getitem l i = Return x -> l !! Z.to_nat i = Some x.
Proof.
  intros Hi. unfold PyList.getitem.
  destruct (i <? 0) eqn:E; [lia|].
  destruct ((0 <=? i) && (i <? Z.of_nat (length l))); [|done].
  destruct (l !! Z.to_nat i); [|done]. congruence.
Qed.

Lemma getitem_raises_index_error {A} (l : list A) (i : Z) (e : exn) :
  PyList.getitem l i = Raise e -> e = IndexError.
Proof.
  unfold PyList.getitem.
  destruct ((0 <=? _) && (_ <? _)); [|congruence].
  destruct (l !! _); congruence.
Qed.

Section RenderFacts.

Context {num : Type} `{Float64 num}.

Lemma sample_at_set_column (i : nat) (col : list num)
    (chunk : list (list num)) (f c : nat) :
  sample_at (set_column i col chunk) f c =
  (row ← chunk !! f; x ← col !! f; (<[i := x]> row) !! c).
Proof.
  unfold sample_at, set_column. rewrite lookup_zip_with.
  by destruct (chunk !! f), (col !! f).
Qed.

Lemma set_column_shape (i : nat) (col : list num) (chunk : list (list num))
    (m : nat) :
  length chunk = length col ->
  Forall (fun row => length row = m) chunk ->
  length (set_column i col chunk) = length col /\
  Forall (fun row => length row = m) (set_column i col chunk).
Proof.
  intros Hlen Hrows. unfold set_column. split.
  - rewrite length_zip_with. lia.
  - apply Forall_lookup. intros k row' Hk.
    apply lookup_zip_with_Some in Hk as (row & x & -> & Hrow & _).
    rewrite length_insert.
    by apply (Forall_lookup_1 _ _ _ _ Hrows Hrow).
Qed.

Lemma generate_chunk_unfold (num_frames : Z) (w : world) :
  generate_chunk num_frames w =
  match np_zeros num_frames (available_channels (self w)) with
  | Return chunk =>
      fill_columns (self w)
        (frame_times num_frames (sample_rate (self w)))
        (seqZ 0 (available_channels (self w))) chunk w
  | Raise e => (Raise e, w)
  end.
Proof.
  unfold generate_chunk, bind, get_self, lift.
  by destruct (np_zeros num_frames (available_channels (self w))).
Qed.

Lemma np_zeros_returns (rows cols : Z) :
  0 <= rows -> 0 <= cols ->
  np_zeros rows cols =
  Return (replicate (Z.to_nat rows) (replicate (Z.to_nat cols) (of_int 0))).
Proof.
  intros Hr Hc. unfold np_zeros.
  destruct (rows <? 0) eqn:E1; [lia|].
  destruct (cols <? 0) eqn:E2; [lia|]. done.
Qed.

Lemma frame_times_lookup (num_frames rate : Z) (f : nat) :
  Z.of_nat f < num_frames ->
  frame_times num_frames rate !! f
  = Some (fdiv (of_int (Z.of_nat f)) (of_int rate)).
Proof.
  intros Hf. unfold frame_times.
  rewrite list_lookup_fmap, lookup_seqZ_lt by assumption. done.
Qed.

Lemma frame_times_length (num_frames rate : Z) :
  length (frame_times num_frames rate) = Z.to_nat num_frames.
Proof. unfold frame_times. by rewrite length_fmap, length_seqZ. Qed.

(** One turn of the loop: the two reads, the two conversions, the
    column. *)
Lemma fill_columns_step (g : generator) (t : list num) (w : world)
    (i : Z) (rest : list Z) (chunk : list (list num)) :
  fill_columns g t (i :: rest) chunk w =
  match PyList.getitem (deref w (amplitudes g)) i with
  | Raise e => (Raise e, w)
  | Return a =>
      match PyList.getitem (deref w (frequencies g)) i with
      | Raise e => (Raise e, w)
      | Return f =>
          if in_range f
          then if in_range a
               then fill_columns g t rest
                      (set_column (Z.to_nat i) (sine_sample a f <$> t) chunk) w
               else (Raise OverflowError, w)
          else (Raise OverflowError, w)
      end
  end.
Proof.
  simpl. unfold bind, list_getitem, lift, as_float.
  destruct (PyList.getitem (deref w (amplitudes g)) i) as [a|]; [|done].
  destruct (PyList.getitem (deref w (frequencies g)) i) as [f|]; [|done].
  destruct (in_range f); [|done]. by destruct (in_range a).
Qed.

(** The loop never changes the state. *)
Lemma fill_columns_world (g : generator) (t : list num) (w : world)
    (todo : list Z) :
  forall chunk, snd (fill_columns g t todo chunk w) = w.
Proof.
  induction todo as [|i rest IH]; intros chunk; [done|].
  rewrite fill_columns_step.
  destruct (PyList.getitem (deref w (amplitudes g)) i) as [a|]; [|done].
  destruct (PyList.getitem (deref w (frequencies g)) i) as [f|]; [|done].
  destruct (in_range f); [|done]. destruct (in_range a); [|done].
  apply IH.
Qed.

(** When every index still to do has an entry in both lists and both
    entries convert, the loop returns; the columns done hold the sine
    samples and the other columns are as before. *)
Lemma fill_columns_returns (g : generator) (t : list num) (w : world)
    (m : nat) (todo : list Z) :
  Forall (fun i =>
            (0 <= i < Z.of_nat (length (deref w (amplitudes g))) /\
             i < Z.of_nat (length (deref w (frequencies g)))) /\
            (forall v,
               deref w (amplitudes g) !! Z.to_nat i = Some v \/
               deref w (frequencies g) !! Z.to_nat i = Some v ->
               in_range v = true)) todo ->
  forall chunk,
    length chunk = length t ->
    Forall (fun row => length row = m) chunk ->
    exists chunk',
      fill_columns g t todo chunk w = (Return chunk', w) /\
      length chunk' = length t /\
      Forall (fun row => length row = m) chunk' /\
      forall (f c : nat) (tk : num),
        t !! f = Some tk -> (c < m)%nat ->
        sample_at chunk' f c =
        if decide (Z.of_nat c ∈ todo)
        then a ← deref w (amplitudes g) !! c;
             fr ← deref w (frequencies g) !! c;
             Some (sine_sample a fr tk)
        else sample_at chunk f c.
Proof.
  induction todo as [|i rest IH]; intros Htodo chunk Hlen Hrows.
  - exists chunk. repeat split; try done.
    all: intros f c tk _ _; case_decide as Hin; [|done].
    all: by apply elem_of_nil in Hin.
  - apply Forall_cons_1 in Htodo as [[[[Hi Hia] Hif] Hconv] Hrest].
    destruct (lookup_lt_is_Some_2 (deref w (amplitudes g)) (Z.to_nat i))
      as [a Ha]; [lia|].
    destruct (lookup_lt_is_Some_2 (deref w (frequencies g)) (Z.to_nat i))
      as [fr Hfr]; [lia|].
    pose (col := sine_sample a fr <$> t).
    destruct (set_column_shape (Z.to_nat i) col chunk m) as [Hlen1 Hrows1];
      [by (unfold col; rewrite length_fmap) | assumption |].
    destruct (IH Hrest (set_column (Z.to_nat i) col chunk))
      as (chunk' & Hrun & Hlen' & Hrows' & Hpt);
      [by (rewrite Hlen1; unfold col; rewrite length_fmap) | assumption |].
    exists chunk'. split.
    { rewrite fill_columns_step.
      rewrite (getitem_in_range _ _ _ Hi Ha).
      rewrite (getitem_in_range _ _ _ Hi Hfr).
      rewrite (Hconv fr (or_intror Hfr)), (Hconv a (or_introl Ha)).
      exact Hrun. }
    repeat split; try assumption.
    intros f c tk Htk Hc. rewrite (Hpt f c tk Htk Hc).
    destruct (decide (Z.of_nat c ∈ rest)) as [Hin|Hnin].
    + rewrite decide_True by (apply elem_of_cons; by right). done.
    + rewrite sample_at_set_column.
      destruct (lookup_lt_is_Some_2 chunk f) as [row Hrow].
      { rewrite Hlen. by apply lookup_lt_Some in Htk. }
      pose proof (Forall_lookup_1 _ _ _ _ Hrows Hrow) as Hrowlen.
      simpl in Hrowlen.
      rewrite Hrow. unfold col. rewrite list_lookup_fmap, Htk. simpl.
      destruct (decide (Z.of_nat c = i)) as [Heq|Hneq].
      * rewrite decide_True by (apply elem_of_cons; by left).
        assert (Z.to_nat i = c) as Hci by lia. rewrite Hci in *.
        rewrite list_lookup_insert_eq by lia.
        by rewrite Ha, Hfr.
      * rewrite decide_False
          by (rewrite elem_of_cons; intros [?|?]; [lia|done]).
        rewrite list_lookup_insert_ne by lia.
        unfold sample_at. by rewrite Hrow.
Qed.

(** What a returning loop tells about the lists. *)
Lemma fill_columns_returned (g : generator) (t : list num) (w : world)
    (todo : list Z) :
  Forall (fun i => 0 <= i) todo ->
  forall chunk chunk' w',
    fill_columns g t todo chunk w = (Return chunk', w') ->
    Forall (fun i =>
              (0 <= i < Z.of_nat (length (deref w (amplitudes g))) /\
               i < Z.of_nat (length (deref w (frequencies g)))) /\
              (forall v,
                 deref w (amplitudes g) !! Z.to_nat i = Some v \/
                 deref w (frequencies g) !! Z.to_nat i = Some v ->
                 in_range v = true)) todo.
Proof.
  induction todo as [|i rest IH]; intros Hpos chunk chunk' w' Hrun;
    [constructor|].
  apply Forall_cons_1 in Hpos as [Hi Hpos].
  rewrite fill_columns_step in Hrun.
  destruct (PyList.getitem (deref w (amplitudes g)) i) as [a|] eqn:Ea;
    [|done].
  destruct (PyList.getitem (deref w (frequencies g)) i) as [f|] eqn:Ef;
    [|done].
  destruct (in_range f) eqn:Rf; [|done].
  destruct (in_range a) eqn:Ra; [|done].
  apply getitem_returns_lookup in Ea; [|assumption].
  apply getitem_returns_lookup in Ef; [|assumption].
  constructor; [|by eapply IH].
  pose proof (lookup_lt_Some _ _ _ Ea). pose proof (lookup_lt_Some _ _ _ Ef).
  split; [lia|]. intros v [Hv|Hv]; congruence.
Qed.

(** What a raising loop tells about the lists. *)
Lemma fill_columns_raised (g : generator) (t : list num) (w : world)
    (todo : list Z) :
  Forall (fun i => 0 <= i) todo ->
  forall chunk e w',
    fill_columns g t todo chunk w = (Raise e, w') ->
    (e = IndexError /\
     exists i, i ∈ todo /\
       (Z.of_nat (length (deref w (amplitudes g))) <= i \/
        Z.of_nat (length (deref w (frequencies g))) <= i)) \/
    (e = OverflowError /\
     exists i a f, i ∈ todo /\
       deref w (amplitudes g) !! Z.to_nat i = Some a /\
       deref w (frequencies g) !! Z.to_nat i = Some f /\
       (in_range a = false \/ in_range f = false)).
Proof.
  induction todo as [|i rest IH]; intros Hpos chunk e w' Hrun; [done|].
  apply Forall_cons_1 in Hpos as [Hi Hpos].
  rewrite fill_columns_step in Hrun.
  destruct (PyList.getitem (deref w (amplitudes g)) i) as [a|e1] eqn:Ea.
  2: { injection Hrun as <- <-. left.
       split; [by eapply getitem_raises_index_error|].
       exists i. split; [by left|]. left.
       destruct (Z_lt_dec i (Z.of_nat (length (deref w (amplitudes g)))))
         as [Hlt|]; [|lia].
       destruct (lookup_lt_is_Some_2 (deref w (amplitudes g)) (Z.to_nat i))
         as [x Hx]; [lia|].
       by rewrite (getitem_in_range _ _ _ Hi Hx) in Ea. }
  destruct (PyList.getitem (deref w (frequencies g)) i) as [f|e1] eqn:Ef.
  2: { injection Hrun as <- <-. left.
       split; [by eapply getitem_raises_index_error|].
       exists i. split; [by left|]. right.
       destruct (Z_lt_dec i (Z.of_nat (length (deref w (frequencies g)))))
         as [Hlt|]; [|lia].
       destruct (lookup_lt_is_Some_2 (deref w (frequencies g)) (Z.to_nat i))
         as [x Hx]; [lia|].
       by rewrite (getitem_in_range _ _ _ Hi Hx) in Ef. }
  apply getitem_returns_lookup in Ea; [|assumption].
  apply getitem_returns_lookup in Ef; [|assumption].
  destruct (in_range f) eqn:Rf.
  2: { injection Hrun as <- <-. right. split; [done|].
       exists i, a, f. split; [by left|]. auto. }
  destruct (in_range a) eqn:Ra.
  2: { injection Hrun as <- <-. right. split; [done|].
       exists i, a, f. split; [by left|]. auto. }
  destruct (IH Hpos _ _ _ Hrun)
    as [[-> (j & Hj & Hbad)] | [-> (j & a' & f' & Hj & Hv)]].
  - left. split; [done|]. exists j. split; [by right|done].
  - right. split; [done|]. exists j, a', f'. split; [by right|done].
Qed.


(** It raises IndexError when, wherever both lists have an entry, both
    entries convert. *)
Lemma fill_columns_raises (g : generator) (t : list num) (w : world)
    (todo : list Z) (bad : Z) :
  Forall (fun i => 0 <= i) todo ->
  bad ∈ todo ->
  Z.of_nat (length (deref w (amplitudes g))) <= bad \/
  Z.of_nat (length (deref w (frequencies g))) <= bad ->
  (forall (i : nat) (a f : pynum),
     deref w (amplitudes g) !! i = Some a ->
     deref w (frequencies g) !! i = Some f ->
     in_range a = true /\ in_range f = true) ->
  forall chunk, fill_columns g t todo chunk w = (Raise IndexError, w).
Proof.
  intros Hpos Hin Hbad Hconv.
  induction todo as [|i rest IH]; intros chunk.
  - by apply elem_of_nil in Hin.
  - apply Forall_cons_1 in Hpos as [Hi Hpos].
    rewrite fill_columns_step.
    destruct (PyList.getitem (deref w (amplitudes g)) i) as [a|e] eqn:Ea.
    2: { by rewrite (getitem_raises_index_error _ _ _ Ea). }
    destruct (PyList.getitem (deref w (frequencies g)) i) as [fr|e] eqn:Ef.
    2: { by rewrite (getitem_raises_index_error _ _ _ Ef). }
    apply getitem_returns_lookup in Ea; [|assumption].
    apply getitem_returns_lookup in Ef; [|assumption].
    destruct (Hconv _ _ _ Ea Ef) as [-> ->].
    apply lookup_lt_Some in Ea, Ef.
    apply elem_of_cons in Hin as [->|Hin]; [lia|].
    by apply IH.
Qed.

(** The loop reads the two lists and nothing else. *)
Lemma fill_columns_reads_lists (g1 g2 : generator) (w1 w2 : world)
    (t : list num) (todo : list Z) :
  deref w1 (amplitudes g1) = deref w2 (amplitudes g2) ->
  deref w1 (frequencies g1) = deref w2 (frequencies g2) ->
  forall chunk,
    fst (fill_columns g1 t todo chunk w1)
    = fst (fill_columns g2 t todo chunk w2).
Proof.
  intros Ha Hf.
  induction todo as [|i rest IH]; intros chunk; [done|].
  rewrite !fill_columns_step. rewrite Ha, Hf.
  destruct (PyList.getitem (deref w2 (amplitudes g2)) i) as [a|]; [|done].
  destruct (PyList.getitem (deref w2 (frequencies g2)) i) as [f|]; [|done].
  destruct (in_range f); [|done]. destruct (in_range a); [|done].
  apply IH.
Qed.


(** The block [generate_chunk] returns from a store whose lists cover
    [available_channels] with entries that convert, by its samples. *)
Lemma generate_chunk_block (w : world) (num_frames : Z) :
  0 <= num_frames ->
  0 <= available_channels (self w) ->
  available_channels (self w)
    <= Z.of_nat (length (deref w (amplitudes (self w)))) ->
  available_channels (self w)
    <= Z.of_nat (length (deref w (frequencies (self w)))) ->
  entries_convert w ->
  exists chunk : list (list num),
    generate_chunk num_frames w = (Return chunk, w) /\
    length chunk = Z.to_nat num_frames /\
    Forall (fun row => length row = Z.to_nat (available_channels (self w)))
           chunk /\
    forall f c : nat,
      Z.of_nat f < num_frames ->
      Z.of_nat c < available_channels (self w) ->
      sample_at chunk f c =
      (a ← deref w (amplitudes (self w)) !! c;
       fr ← deref w (frequencies (self w)) !! c;
       Some (sine_sample a fr
               (fdiv (of_int (Z.of_nat f)) (of_int (sample_rate (self w)))))).
Proof.
  intros Hn Hav Hamps Hfreqs Hconv.
  destruct (fill_columns_returns (self w)
              (frame_times num_frames (sample_rate (self w))) w
              (Z.to_nat (available_channels (self w)))
              (seqZ 0 (available_channels (self w))))
    with (chunk := replicate (Z.to_nat num_frames)
                     (replicate (Z.to_nat (available_channels (self w)))
                                (of_int 0)))
    as (chunk & Hrun & Hlen & Hrows & Hpt).
  { apply Forall_seqZ. intros i Hi. split; [lia|].
    intros v Hv. apply (Hconv (Z.to_nat i) v); [lia|exact Hv]. }
  { by rewrite length_replicate, frame_times_length. }
  { apply Forall_replicate. apply length_replicate. }
  exists chunk. split.
  { rewrite generate_chunk_unfold, np_zeros_returns by assumption.
    exact Hrun. }
  split; [by rewrite Hlen; apply frame_times_length|].
  split; [exact Hrows|].
  intros f c Hf Hc.
  rewrite (Hpt f c _ (frame_times_lookup _ _ _ Hf)) by lia.
  by rewrite decide_True by (apply elem_of_seqZ; lia).
Qed.


End RenderFacts.

(** In float64 the defaults and every int below [2^53] convert; over
    the reals everything does. *)
Lemma entries_convert_reals (w : world) : entries_convert (num := R) w.
Proof. intros c v _ _. by destruct v. Qed.


(** Over the reals, with a sample rate that is not 0, the sample of the
    code is the sample of the specification for a block that starts at
    frame 0. *)
Lemma sine_sample_is_claimed_at_zero (a fr : pynum) (f rate : Z) :
  rate <> 0 ->
  sine_sample (num := R) a fr (fdiv (of_int f) (of_int rate))
  = claimed_sample a fr 0 f rate.
Proof.
  intros Hrate. unfold sine_sample, claimed_sample; simpl.
  rewrite Z.add_0_l. f_equal. f_equal. field. by apply not_0_IZR.
Qed.


(** ** Rendering from a damaged store *)

Section RenderFailures.

Context {num : Type} `{Float64 num}.

(** A negative frame count is refused by [np.zeros]. *)
Lemma generate_chunk_negative_frames (w : world) (num_frames : Z) :
  num_frames < 0 ->
  generate_chunk (num := num) num_frames w = (Raise ValueError, w).
Proof.
  intros Hn. rewrite generate_chunk_unfold. unfold np_zeros.
  destruct (num_frames <? 0) eqn:E; [done|lia].
Qed.


Lemma generate_chunk_raises (w : world) (num_frames : Z) :
  0 <= num_frames ->
  Z.of_nat (length (deref w (amplitudes (self w))))
    < available_channels (self w) \/
  Z.of_nat (length (deref w (frequencies (self w))))
    < available_channels (self w) ->
  (forall (i : nat) (a f : pynum),
     deref w (amplitudes (self w)) !! i = Some a ->
     deref w (frequencies (self w)) !! i = Some f ->
     in_range a = true /\ in_range f = true) ->
  generate_chunk (num := num) num_frames w = (Raise IndexError, w).
Proof.
  intros Hn Hshort Hconv.
  rewrite generate_chunk_unfold, np_zeros_returns by lia.
  set (k := Z.min (Z.of_nat (length (deref w (amplitudes (self w)))))
                  (Z.of_nat (length (deref w (frequencies (self w)))))).
  apply fill_columns_raises with (bad := k).
  - apply Forall_seqZ. intros i Hi. lia.
  - apply elem_of_seqZ. lia.
  - lia.
  - exact Hconv.
Qed.

(** An entry that does not convert, at an index both lists have, is
    met before the end of either list. *)
Lemma fill_columns_overflows (g : generator) (t : list num) (w : world)
    (i : nat) (a f : pynum) :
  deref w (amplitudes g) !! i = Some a ->
  deref w (frequencies g) !! i = Some f ->
  in_range a = false \/ in_range f = false ->
  forall (k : nat) (s : Z) (chunk : list (list num)),
    0 <= s ->
    s <= Z.of_nat i < s + Z.of_nat k ->
    fill_columns g t (seqZ s (Z.of_nat k)) chunk w = (Raise OverflowError, w).
Proof.
  intros Ha Hf Hbad.
  induction k as [|k IH]; intros s chunk Hs Hi; [lia|].
  rewrite seqZ_cons by lia. rewrite fill_columns_step.
  replace (Z.pred (Z.of_nat (S k))) with (Z.of_nat k) by lia.
  pose proof (lookup_lt_Some _ _ _ Ha) as Hla.
  pose proof (lookup_lt_Some _ _ _ Hf) as Hlf.
  destruct (lookup_lt_is_Some_2 (deref w (amplitudes g)) (Z.to_nat s))
    as [a0 Ha0]; [lia|].
  destruct (lookup_lt_is_Some_2 (deref w (frequencies g)) (Z.to_nat s))
    as [f0 Hf0]; [lia|].
  rewrite (getitem_in_range _ _ _ Hs Ha0), (getitem_in_range _ _ _ Hs Hf0).
  destruct (in_range f0) eqn:Rf; [|done].
  destruct (in_range a0) eqn:Ra; [|done].
  apply IH; [lia|].
  assert (Z.of_nat i <> s); [|lia].
  intros <-. rewrite Nat2Z.id in Ha0, Hf0.
  destruct Hbad; congruence.
Qed.

Lemma generate_chunk_overflows (w : world) (num_frames : Z) (c : nat)
    (a f : pynum) :
  0 <= num_frames ->
  Z.of_nat c < available_channels (self w) ->
  deref w (amplitudes (self w)) !! c = Some a ->
  deref w (frequencies (self w)) !! c = Some f ->
  in_range a = false \/ in_range f = false ->
  generate_chunk (num := num) num_frames w = (Raise OverflowError, w).
Proof.
  intros Hn Hc Ha Hf Hbad.
  rewrite generate_chunk_unfold, np_zeros_returns by lia.
  pose proof (fill_columns_overflows (self w)
                (frame_times num_frames (sample_rate (self w))) w c a f
                Ha Hf Hbad (Z.to_nat (available_channels (self w))) 0) as Hk.
  rewrite Z2Nat.id in Hk by lia. apply Hk; lia.
Qed.



(** C10. [generate_chunk] reads the two lists, [available_channels]
    and [sample_rate], and nothing else: two generators that agree on
    these return the same block, or raise the same exception, for the
    same frame count; and a call leaves the generator as it found it,
    so a second call on it gives the same again. *)
Theorem generate_chunk_deterministic (w1 w2 : world) (num_frames : Z) :
  deref w1 (frequencies (self w1)) = deref w2 (frequencies (self w2)) ->
  deref w1 (amplitudes (self w1)) = deref w2 (amplitudes (self w2)) ->
  available_channels (self w1) = available_channels (self w2) ->
  sample_rate (self w1) = sample_rate (self w2) ->
  result (generate_chunk (num := num) num_frames) w1
  = result (generate_chunk (num := num) num_frames) w2 /\
  run (generate_chunk (num := num) num_frames) w1 = w1 /\
  run (generate_chunk (num := num) num_frames) w2 = w2.
Proof.
  intros Hf Ha Hav Hrate.
  assert (Hworld : forall w,
             run (generate_chunk (num := num) num_frames) w = w).
  { intros w. unfold run. rewrite generate_chunk_unfold.
    destruct (np_zeros num_frames (available_channels (self w))); [|done].
    apply fill_columns_world. }
  split; [|by split].
  unfold result. rewrite !generate_chunk_unfold, Hav, Hrate.
  destruct (np_zeros num_frames (available_channels (self w2))); [|done].
  by apply fill_columns_reads_lists.
Qed.

End RenderFailures.



Lemma generate_chunk_deterministic_witness :
  let w1 := snd (init 2 44100 [] [] (Some 16)) in
  let w2 := snd (init 2 44100 [[PyInt 1]] [] (Some 2)) in
  result (generate_chunk (num := fexpr) 3) w1
  = result (generate_chunk (num := fexpr) 3) w2.
Proof.
  apply (generate_chunk_deterministic (num := fexpr)
           (snd (init 2 44100 [] [] (Some 16)))
           (snd (init 2 44100 [[PyInt 1]] [] (Some 2))) 3);
    reflexivity.
Defined.

(** * Further properties of the store *)

(** ** The amplitude setter and [update_channel] *)

Lemma set_amplitude_writes_entry (w : world) (c : Z) (a : pynum) :
  0 <= c < num_channels (self w) ->
  c < Z.of_nat (length (deref w (amplitudes (self w)))) ->
  set_amplitude c a w =
  (Return tt,
   mkWorld
     (<[amplitudes (self w)
        := <[Z.to_nat c := a]> (deref w (amplitudes (self w)))]> (objs w))
     (self w) (stdout w) (host w)).
Proof.
  intros Hc Hlen. rewrite set_amplitude_unfold.
  rewrite (proj2 (channel_in_range_true c (self w))) by lia.
  apply list_setitem_returns. lia.
Qed.

(** X1. On a store of two distinct lists of [num_channels] entries and
    for a channel [c] in [0, num_channels), [set_amplitude c a] returns,
    and [get_channel_info] then reports [a] at [c], every other
    amplitude as before, and every frequency and both counts as before. *)
Theorem set_amplitude_reported (w : world) (c : Z) (a : pynum) :
  heap_ok w ->
  lengths_ok w ->
  0 <= c < num_channels (self w) ->
  exists (w' : world) (i : channel_info),
    set_amplitude c a w = (Return tt, w') /\
    get_channel_info w' = (Return i, w') /\
    PyList.getitem (deref w' (info_amplitudes i)) c = Return a /\
    (forall k : nat,
       k <> Z.to_nat c ->
       deref w' (info_amplitudes i) !! k
       = deref w (amplitudes (self w)) !! k) /\
    length (deref w' (info_amplitudes i))
    = length (deref w (amplitudes (self w))) /\
    deref w' (info_frequencies i) = deref w (frequencies (self w)) /\
    info_num_channels i = num_channels (self w) /\
    info_available_channels i = available_channels (self w).
Proof.
  intros (Hne & Hf & Ha) [_ Hlen] Hc.
  eexists _, _. split.
  { apply set_amplitude_writes_entry; [assumption | lia]. }
  split; [reflexivity|]. simpl.
  rewrite deref_insert_same by assumption.
  rewrite deref_insert_other by congruence.
  repeat split.
  - apply getitem_in_range; [lia|].
    apply list_lookup_insert_eq. lia.
  - intros k Hk. by rewrite list_lookup_insert_ne.
  - apply length_insert.
Qed.

Lemma set_amplitude_reported_witness :
  let w := snd (init 4 44100 [] [] (Some 16)) in
  exists (w' : world) (i : channel_info),
    set_amplitude 3 (PyFloat (4 # 5)) w = (Return tt, w') /\
    get_channel_info w' = (Return i, w') /\
    PyList.getitem (deref w' (info_amplitudes i)) 3 = Return (PyFloat (4 # 5)).
Proof.
  destruct (set_amplitude_reported
              (snd (init 4 44100 [] [] (Some 16))) 3 (PyFloat (4 # 5)))
    as (w' & i & H1 & H2 & H3 & _).
  - unfold heap_ok; simpl. lia.
  - unfold lengths_ok; simpl. lia.
  - simpl. lia.
  - exists w', i. auto.
Defined.

Lemma update_channel_unfold_setters (w : world) (c : Z) (fo ao : option pynum) :
  update_channel c fo ao w =
  (match fo with
   | Some f => set_frequency c f
   | None => ret tt
   end ;;;
   match ao with
   | Some a => set_amplitude c a
   | None => ret tt
   end) w.
Proof.
  assert (Hset : forall r x w1,
             self (snd (list_setitem r c x w1)) = self w1).
  { intros r x w1. unfold list_setitem.
    by destruct (PyList.setitem (deref w1 r) c x). }
  assert (Hamp : forall w1, self w1 = self w ->
             match ao with
             | Some a => set_amplitude c a
             | None => ret tt
             end w1 =
             if channel_in_range c (self w)
             then match ao with
                  | Some a => list_setitem (amplitudes (self w)) c a
                  | None => ret tt
                  end w1
             else (Return tt, w1)).
  { intros w1 Hs. destruct ao as [a|].
    - rewrite set_amplitude_unfold, Hs.
      by destruct (channel_in_range c (self w)).
    - by destruct (channel_in_range c (self w)). }
  unfold update_channel, bind, get_self. cbv beta iota.
  destruct fo as [f|].
  - rewrite set_frequency_unfold.
    destruct (channel_in_range c (self w)) eqn:E.
    + specialize (Hset (frequencies (self w)) f w).
      destruct (list_setitem (frequencies (self w)) c f w) as [[[]|e] w1];
        [|done].
      simpl in Hset. rewrite (Hamp w1 Hset), ?E. done.
    + by rewrite (Hamp w eq_refl), ?E.
  - change (ret tt w) with (Return tt, w). cbv beta iota.
    rewrite (Hamp w eq_refl).
    by destruct (channel_in_range c (self w)).
Qed.

(** X2. [update_channel] is the frequency setter followed by the
    amplitude setter, each left out when its argument is [None]: the two
    computations return or raise alike and leave the same state, in
    every state. *)
Theorem update_channel_as_setters (w : world) (c : Z) (fo ao : option pynum) :
  update_channel c fo ao w =
  (match fo with
   | Some f => set_frequency c f
   | None => ret tt
   end ;;;
   match ao with
   | Some a => set_amplitude c a
   | None => ret tt
   end) w.
Proof. apply update_channel_unfold_setters. Qed.

(** X3. [update_channel] is not all-or-nothing. When the frequency list
    has an entry [c] and the amplitude list has not, the call with both
    values writes the frequency and then raises IndexError; the written
    frequency stays. *)
Theorem update_channel_partial_write (w : world) (c : Z) (f a : pynum) :
  heap_ok w ->
  0 <= c < num_channels (self w) ->
  c < Z.of_nat (length (deref w (frequencies (self w)))) ->
  Z.of_nat (length (deref w (amplitudes (self w)))) <= c ->
  result (update_channel c (Some f) (Some a)) w = Raise IndexError /\
  (let w' := run (update_channel c (Some f) (Some a)) w in
   deref w' (frequencies (self w'))
   = <[Z.to_nat c := f]> (deref w (frequencies (self w))) /\
   PyList.getitem (deref w' (frequencies (self w'))) c = Return f /\
   deref w' (amplitudes (self w')) = deref w (amplitudes (self w))).
Proof.
  intros (Hne & Hf & Ha) Hc Hlf Hla.
  unfold result, run. rewrite update_channel_unfold_setters. unfold bind.
  rewrite set_frequency_writes_entry by assumption.
  rewrite set_amplitude_unfold; simpl.
  rewrite (proj2 (channel_in_range_true c (self w))) by lia.
  rewrite list_setitem_raises;
    [|by simpl; rewrite deref_insert_other by assumption].
  simpl. rewrite deref_insert_same by assumption.
  rewrite deref_insert_other by assumption.
  repeat split.
  apply getitem_in_range; [lia|]. apply list_lookup_insert_eq. lia.
Qed.

Lemma update_channel_partial_write_witness :
  let w := run (update_all_channels None (Some [PyFloat (1 # 1)]))
               (snd (init 4 44100 [] [] (Some 16))) in
  result (update_channel 2 (Some (PyInt 880)) (Some (PyFloat (4 # 5)))) w
  = Raise IndexError /\
  deref (run (update_channel 2 (Some (PyInt 880)) (Some (PyFloat (4 # 5)))) w)
        (frequencies (self w))
  = [PyInt 440; PyInt 440; PyInt 880; PyInt 440].
Proof.
  destruct (update_channel_partial_write
              (run (update_all_channels None (Some [PyFloat (1 # 1)]))
                   (snd (init 4 44100 [] [] (Some 16))))
              2 (PyInt 880) (PyFloat (4 # 5)))
    as (H1 & H2 & _).
  - unfold heap_ok; simpl. lia.
  - simpl. lia.
  - simpl. lia.
  - simpl. lia.
  - split; [exact H1|]. exact H2.
Defined.

Lemma set_frequency_effect (w : world) (c : Z) (f : pynum) :
  (frequencies (self w) < length (objs w))%nat ->
  0 <= c < num_channels (self w) ->
  c < Z.of_nat (length (deref w (frequencies (self w)))) ->
  exists w' : world,
    set_frequency c f w = (Return tt, w') /\
    self w' = self w /\
    length (objs w') = length (objs w) /\
    deref w' (frequencies (self w))
    = <[Z.to_nat c := f]> (deref w (frequencies (self w))) /\
    forall r : loc, r <> frequencies (self w) -> deref w' r = deref w r.
Proof.
  intros Hf Hc Hlen. eexists. split.
  { by apply set_frequency_writes_entry. }
  simpl. rewrite length_insert. repeat split.
  - by apply deref_insert_same.
  - intros r Hr. rewrite deref_insert_other by congruence. by destruct w.
Qed.

Lemma set_amplitude_effect (w : world) (c : Z) (a : pynum) :
  (amplitudes (self w) < length (objs w))%nat ->
  0 <= c < num_channels (self w) ->
  c < Z.of_nat (length (deref w (amplitudes (self w)))) ->
  exists w' : world,
    set_amplitude c a w = (Return tt, w') /\
    self w' = self w /\
    length (objs w') = length (objs w) /\
    deref w' (amplitudes (self w))
    = <[Z.to_nat c := a]> (deref w (amplitudes (self w))) /\
    forall r : loc, r <> amplitudes (self w) -> deref w' r = deref w r.
Proof.
  intros Ha Hc Hlen. eexists. split.
  { by apply set_amplitude_writes_entry. }
  simpl. rewrite length_insert. repeat split.
  - by apply deref_insert_same.
  - intros r Hr. rewrite deref_insert_other by congruence. by destruct w.
Qed.

(** X4. On a store of two distinct lists of [num_channels] entries and
    for [c] in [0, num_channels), [update_channel] returns; the frequency
    list has the given frequency at [c] if one is given and is unchanged
    otherwise, likewise the amplitude list, and no attribute changes. *)
Theorem update_channel_reported (w : world) (c : Z) (fo ao : option pynum) :
  heap_ok w ->
  lengths_ok w ->
  0 <= c < num_channels (self w) ->
  let w' := run (update_channel c fo ao) w in
  result (update_channel c fo ao) w = Return tt /\
  self w' = self w /\
  deref w' (frequencies (self w)) =
    match fo with
    | Some f => <[Z.to_nat c := f]> (deref w (frequencies (self w)))
    | None => deref w (frequencies (self w))
    end /\
  deref w' (amplitudes (self w)) =
    match ao with
    | Some a => <[Z.to_nat c := a]> (deref w (amplitudes (self w)))
    | None => deref w (amplitudes (self w))
    end.
Proof.
  intros (Hne & Hf & Ha) [Hlf Hla] Hc. intros w'. subst w'.
  unfold result, run. rewrite update_channel_unfold_setters. unfold bind.
  destruct fo as [f|].
  - destruct (set_frequency_effect w c f) as (w1 & -> & Hs1 & Hl1 & Hd1 & Ho1);
      [assumption | assumption | lia |].
    destruct ao as [a|]; simpl.
    + destruct (set_amplitude_effect w1 c a)
        as (w2 & -> & Hs2 & Hl2 & Hd2 & Ho2).
      { rewrite Hs1, Hl1. assumption. }
      { by rewrite Hs1. }
      { rewrite Hs1, Ho1 by congruence. lia. }
      simpl. rewrite Hs1 in *. repeat split.
      * congruence.
      * by rewrite Ho2, Hd1 by assumption.
      * by rewrite Hd2, Ho1 by congruence.
    + repeat split; try assumption. by apply Ho1; congruence.
  - simpl. destruct ao as [a|]; simpl; [|done].
    destruct (set_amplitude_effect w c a) as (w2 & -> & Hs2 & Hl2 & Hd2 & Ho2);
      [assumption | assumption | lia |].
    simpl. repeat split; try assumption. by apply Ho2.
Qed.

Lemma update_channel_reported_witness :
  let w := snd (init 4 44100 [] [] (Some 16)) in
  let w' := run (update_channel 0 (Some (PyInt 880)) (Some (PyFloat (4 # 5)))) w in
  deref w' (frequencies (self w))
  = [PyInt 880; PyInt 440; PyInt 440; PyInt 440] /\
  deref w' (amplitudes (self w))
  = [PyFloat (4 # 5); PyFloat (1 # 2); PyFloat (1 # 2); PyFloat (1 # 2)].
Proof.
  destruct (update_channel_reported
              (snd (init 4 44100 [] [] (Some 16))) 0
              (Some (PyInt 880)) (Some (PyFloat (4 # 5))))
    as (_ & _ & H1 & H2).
  - unfold heap_ok; simpl. lia.
  - unfold lengths_ok; simpl. lia.
  - simpl. lia.
  - split; [exact H1 | exact H2].
Defined.

(** ** What the methods leave alone *)

Lemma keeps_surroundings_ret {A} (a : A) : keeps_surroundings (ret a).
Proof. by intros w. Qed.

Lemma keeps_surroundings_bind {A B} (m : py A) (k : A -> py B) :
  keeps_surroundings m -> (forall a, keeps_surroundings (k a)) ->
  keeps_surroundings (bind m k).
Proof.
  intros Hm Hk w. specialize (Hm w). unfold run, bind in *.
  destruct (m w) as [[a|e] w1]; simpl in *; [|exact Hm].
  destruct Hm as [Ho Hh]. destruct (Hk a w1) as [Ho' Hh']. unfold run in *.
  by rewrite Ho', Hh', Ho, Hh.
Qed.

Lemma keeps_surroundings_list_setitem (r : loc) (i : Z) (x : pynum) :
  keeps_surroundings (list_setitem r i x).
Proof.
  intros w. unfold run, list_setitem.
  by destruct (PyList.setitem (deref w r) i x).
Qed.

Lemma keeps_surroundings_update_channel (c : Z) (fo ao : option pynum) :
  keeps_surroundings (update_channel c fo ao).
Proof.
  apply keeps_surroundings_bind; [by intros w|]. intros g.
  destruct (channel_in_range c g); [|apply keeps_surroundings_ret].
  apply keeps_surroundings_bind.
  - destruct fo;
      [apply keeps_surroundings_list_setitem | apply keeps_surroundings_ret].
  - intros _. destruct ao;
      [apply keeps_surroundings_list_setitem | apply keeps_surroundings_ret].
Qed.

(** X5. Only [set_channels] changes the configuration. The three
    setters, whether they return or raise, change no attribute of the
    generator, print nothing and leave the device alone;
    [update_all_channels] rebinds the two lists and nothing else; and
    [set_channels] itself keeps [sample_rate] and [is_playing]. *)
Theorem configuration_changes_only_in_set_channels (w : world) :
  (forall c fo ao,
     let w' := run (update_channel c fo ao) w in
     self w' = self w /\ stdout w' = stdout w /\ host w' = host w) /\
  (forall c f,
     let w' := run (set_frequency c f) w in
     self w' = self w /\ stdout w' = stdout w /\ host w' = host w) /\
  (forall c a,
     let w' := run (set_amplitude c a) w in
     self w' = self w /\ stdout w' = stdout w /\ host w' = host w) /\
  (forall fo ao,
     let w' := run (update_all_channels fo ao) w in
     num_channels (self w') = num_channels (self w) /\
     available_channels (self w') = available_channels (self w) /\
     sample_rate (self w') = sample_rate (self w) /\
     is_playing (self w') = is_playing (self w) /\
     stdout w' = stdout w /\ host w' = host w) /\
  (forall n,
     let w' := run (set_channels n) w in
     sample_rate (self w') = sample_rate (self w) /\
     is_playing (self w') = is_playing (self w) /\
     host w' = host w).
Proof.
  assert (Huc : forall c fo ao,
             let w' := run (update_channel c fo ao) w in
             self w' = self w /\ stdout w' = stdout w /\ host w' = host w).
  { intros c fo ao w'. subst w'.
    destruct (keeps_shape_update_channel c fo ao w) as (Hs & _).
    destruct (keeps_surroundings_update_channel c fo ao w) as [Ho Hh].
    done. }
  split; [exact Huc|]. split; [|split; [|split]].
  - intros c f w'. subst w'. specialize (Huc c (Some f) None).
    unfold run in *. rewrite update_channel_unfold_setters in Huc.
    unfold bind in Huc. destruct (set_frequency c f w) as [[[]|e] w1]; exact Huc.
  - intros c a w'. subst w'. specialize (Huc c None (Some a)).
    unfold run in *. rewrite update_channel_unfold_setters in Huc.
    exact Huc.
  - intros fo ao w'. subst w'. unfold run.
    by rewrite update_all_channels_unfold.
  - intros n w'. subst w'. unfold run. by rewrite set_channels_unfold.
Qed.

(** ** Invariants of every reachable state *)

Lemma slice_to_length_le {A} (l : list A) (n : Z) :
  0 <= n -> Z.of_nat (length (PyList.slice_to l n)) <= n.
Proof.
  intros Hn. unfold PyList.slice_to.
  destruct (n <? 0) eqn:E; [lia|]. rewrite length_take. lia.
Qed.

(** X6. In every reachable state with [num_channels] not negative,
    neither list has more than [num_channels] entries: the methods can
    shorten a list below [num_channels] but never let it grow past it. *)
Theorem lists_never_exceed_num_channels (w : world) :
  reachable w ->
  0 <= num_channels (self w) ->
  Z.of_nat (length (deref w (frequencies (self w)))) <= num_channels (self w) /\
  Z.of_nat (length (deref w (amplitudes (self w)))) <= num_channels (self w).
Proof.
  intros Hreach.
  assert (Hset : forall w0 n,
             let w' := run (set_channels n) w0 in
             0 <= num_channels (self w') ->
             Z.of_nat (length (deref w' (frequencies (self w'))))
               <= num_channels (self w') /\
             Z.of_nat (length (deref w' (amplitudes (self w'))))
               <= num_channels (self w')).
  { intros w0 n w' Hn.
    pose proof (set_channels_frequencies w0 n) as Hf.
    pose proof (set_channels_amplitudes w0 n) as Ha.
    fold w' in Hf, Ha. simpl in Hf, Ha. rewrite Hf, Ha, !length_replicate.
    subst w'. unfold run in *. rewrite set_channels_unfold in *. simpl in *.
    lia. }
  assert (Hkeep : forall (m : py unit) w0,
             keeps_shape m ->
             (0 <= num_channels (self w0) ->
              Z.of_nat (length (deref w0 (frequencies (self w0))))
                <= num_channels (self w0) /\
              Z.of_nat (length (deref w0 (amplitudes (self w0))))
                <= num_channels (self w0)) ->
             0 <= num_channels (self (run m w0)) ->
             Z.of_nat (length (deref (run m w0) (frequencies (self (run m w0)))))
               <= num_channels (self (run m w0)) /\
             Z.of_nat (length (deref (run m w0) (amplitudes (self (run m w0)))))
               <= num_channels (self (run m w0))).
  { intros m w0 Hm IH. destruct (Hm w0) as (Hs & _ & Hd).
    rewrite Hs, !Hd. exact IH. }
  induction Hreach as [n rate heap out dev | w n _ _ | w c f Hr IH
                      | w c a Hr IH | w c fo ao Hr IH | w fs amps Hr IH
                      | w out dev Hr IH].
  - apply (Hset (mkWorld heap (mkGenerator rate false 0 0%nat 0%nat 0) out dev)).
  - apply Hset.
  - by apply Hkeep; [apply keeps_shape_set_frequency|].
  - by apply Hkeep; [apply keeps_shape_set_amplitude|].
  - by apply Hkeep; [apply keeps_shape_update_channel|].
  - destruct (reachable_heap_ok w Hr) as (Hne & Hf & Ha).
    unfold run. rewrite update_all_channels_unfold. simpl. intros Hn.
    specialize (IH Hn). unfold deref in *; simpl.
    destruct fs as [lf|], amps as [la|]; simpl.
    + rewrite lookup_app_l by (rewrite length_app; simpl; lia).
      rewrite !lookup_app_r by lia. rewrite !Nat.sub_diag; simpl.
      split; by apply slice_to_length_le.
    + rewrite lookup_app_r by lia. rewrite Nat.sub_diag; simpl.
      rewrite lookup_app_l by lia.
      split; [by apply slice_to_length_le | apply IH].
    + rewrite (lookup_app_l _ _ (frequencies (self w))) by lia.
      rewrite lookup_app_r by lia. rewrite Nat.sub_diag; simpl.
      split; [apply IH | by apply slice_to_length_le].
    + exact IH.
  - exact IH.
Qed.

Lemma lists_never_exceed_num_channels_witness :
  let w := run (update_all_channels
                  (Some [PyInt 1; PyInt 2; PyInt 3; PyInt 4; PyInt 5]) None)
               (snd (init 3 44100 [] [] (Some 16))) in
  Z.of_nat (length (deref w (frequencies (self w)))) <= 3.
Proof.
  apply (lists_never_exceed_num_channels
           (run (update_all_channels
                   (Some [PyInt 1; PyInt 2; PyInt 3; PyInt 4; PyInt 5]) None)
                (snd (init 3 44100 [] [] (Some 16))))).
  - apply reach_update_all_channels, reach_init.
  - simpl. lia.
Defined.

(** X7. In every reachable state the frequency list and the amplitude
    list are two different objects, so [set_frequency] never changes an
    amplitude and [set_amplitude] never changes a frequency, whether the
    call returns or raises. *)
Theorem setters_do_not_interfere (w : world) (c : Z) (x : pynum) :
  reachable w ->
  frequencies (self w) <> amplitudes (self w) /\
  deref (run (set_frequency c x) w) (amplitudes (self w))
  = deref w (amplitudes (self w)) /\
  deref (run (set_amplitude c x) w) (frequencies (self w))
  = deref w (frequencies (self w)).
Proof.
  intros Hr. destruct (reachable_heap_ok w Hr) as (Hne & Hf & Ha).
  split; [exact Hne|]. unfold run.
  rewrite set_frequency_unfold, set_amplitude_unfold.
  destruct (channel_in_range c (self w)); [|done].
  unfold list_setitem. split.
  - destruct (PyList.setitem (deref w (frequencies (self w))) c x); simpl;
      [|done].
    rewrite deref_insert_other by assumption. by destruct w.
  - destruct (PyList.setitem (deref w (amplitudes (self w))) c x); simpl;
      [|done].
    rewrite deref_insert_other by congruence. by destruct w.
Qed.

Lemma setters_do_not_interfere_witness :
  let w := snd (init 4 44100 [] [] (Some 16)) in
  deref (run (set_frequency 1 (PyInt 880)) w) (amplitudes (self w))
  = deref w (amplitudes (self w)).
Proof.
  apply (setters_do_not_interfere
           (snd (init 4 44100 [] [] (Some 16))) 1 (PyInt 880)).
  apply reach_init.
Defined.

(** X8. In every reachable state [available_channels] is at most
    [num_channels] or is the fallback value 2. *)
Theorem available_channels_bounded_or_fallback (w : world) :
  reachable w ->
  available_channels (self w) <= num_channels (self w) \/
  available_channels (self w) = 2.
Proof.
  assert (Hset : forall w0 n,
             available_channels (self (run (set_channels n) w0))
               <= num_channels (self (run (set_channels n) w0)) \/
             available_channels (self (run (set_channels n) w0)) = 2).
  { intros w0 n. unfold run. rewrite set_channels_unfold; simpl.
    destruct (host w0); lia. }
  induction 1 as [n rate heap out dev | w n _ _ | w c f Hr IH
                 | w c a Hr IH | w c fo ao Hr IH | w fs amps Hr IH
                 | w out dev Hr IH].
  - apply (Hset (mkWorld heap (mkGenerator rate false 0 0%nat 0%nat 0) out dev)).
  - apply Hset.
  - destruct (keeps_shape_set_frequency c f w) as (-> & _). exact IH.
  - destruct (keeps_shape_set_amplitude c a w) as (-> & _). exact IH.
  - destruct (keeps_shape_update_channel c fo ao w) as (-> & _). exact IH.
  - unfold run. rewrite update_all_channels_unfold. exact IH.
  - exact IH.
Qed.

Lemma available_channels_bounded_or_fallback_witness :
  let w := snd (init 1 44100 [] [] None) in
  available_channels (self w) <= num_channels (self w) \/
  available_channels (self w) = 2.
Proof.
  apply (available_channels_bounded_or_fallback
           (snd (init 1 44100 [] [] None))).
  apply reach_init.
Defined.

(** ** Replacing whole lists with full-length input *)

(** X9. On a store of two distinct lists of [num_channels] entries,
    [update_all_channels] with lists of at least [num_channels] entries
    returns and keeps the store such a store; a given list is stored as
    its first [num_channels] entries (all of it when it has exactly
    that many) and a list not given stays as it was. *)
Theorem update_all_channels_full_input (w : world)
    (fo ao : option (list pynum)) :
  heap_ok w ->
  lengths_ok w ->
  (forall l, fo = Some l -> num_channels (self w) <= Z.of_nat (length l)) ->
  (forall l, ao = Some l -> num_channels (self w) <= Z.of_nat (length l)) ->
  let w' := run (update_all_channels fo ao) w in
  result (update_all_channels fo ao) w = Return tt /\
  heap_ok w' /\
  lengths_ok w' /\
  deref w' (frequencies (self w')) =
    match fo with
    | Some l => take (Z.to_nat (num_channels (self w))) l
    | None => deref w (frequencies (self w))
    end /\
  deref w' (amplitudes (self w')) =
    match ao with
    | Some l => take (Z.to_nat (num_channels (self w))) l
    | None => deref w (amplitudes (self w))
    end.
Proof.
  intros Hok Hlen Hfo Hao w'.
  split; [by unfold result; rewrite update_all_channels_unfold|].
  split; [by apply update_all_channels_heap_ok|].
  split; [by apply update_all_channels_lengths_ok|].
  destruct Hok as (Hne & Hf & Ha). destruct Hlen as [Hlf Hla].
  assert (0 <= num_channels (self w)) as Hn by lia.
  assert (Hslice : forall l : list pynum,
             PyList.slice_to l (num_channels (self w))
                             = take (Z.to_nat (num_channels (self w))) l).
  { intros l. unfold PyList.slice_to.
    by destruct (num_channels (self w) <? 0) eqn:E; [lia|]. }
  subst w'. unfold run. rewrite update_all_channels_unfold.
  unfold deref; simpl.
  destruct fo as [lf|], ao as [la|]; simpl; rewrite ?Hslice.
  - rewrite lookup_app_l by (rewrite length_app; simpl; lia).
    rewrite !lookup_app_r by lia. by rewrite !Nat.sub_diag.
  - rewrite lookup_app_r by lia. rewrite Nat.sub_diag; simpl.
    by rewrite lookup_app_l by lia.
  - rewrite (lookup_app_l _ _ (frequencies (self w))) by lia.
    rewrite lookup_app_r by lia. by rewrite Nat.sub_diag.
  - done.
Qed.

Lemma update_all_channels_full_input_witness :
  let w := snd (init 4 44100 [] [] (Some 16)) in
  let w' := run (update_all_channels
                   (Some [PyInt 200; PyInt 300; PyInt 400; PyInt 500]) None) w in
  deref w' (frequencies (self w'))
  = [PyInt 200; PyInt 300; PyInt 400; PyInt 500] /\
  deref w' (amplitudes (self w'))
  = [PyFloat (1 # 2); PyFloat (1 # 2); PyFloat (1 # 2); PyFloat (1 # 2)].
Proof.
  destruct (update_all_channels_full_input
              (snd (init 4 44100 [] [] (Some 16)))
              (Some [PyInt 200; PyInt 300; PyInt 400; PyInt 500]) None)
    as (_ & _ & _ & H1 & H2).
  - unfold heap_ok; simpl. lia.
  - unfold lengths_ok; simpl. lia.
  - intros l [= <-]. simpl. lia.
  - intros l [=].
  - split; [exact H1 | exact H2].
Defined.

(** ** Order of writes *)

Lemma deref_nonempty_valid (w : world) (r : loc) :
  (0 < length (deref w r))%nat -> (r < length (objs w))%nat.
Proof.
  unfold deref. intros H. destruct (objs w !! r) as [l|] eqn:E.
  - by eapply lookup_lt_Some.
  - simpl in H. lia.
Qed.

(** The state after a write at an index that is not negative. *)
Lemma run_list_setitem (w : world) (r : loc) (i : Z) (x : pynum) :
  0 <= i ->
  run (list_setitem r i x) w =
  if i <? Z.of_nat (length (deref w r))
  then mkWorld (<[r := <[Z.to_nat i := x]> (deref w r)]> (objs w))
         (self w) (stdout w) (host w)
  else w.
Proof.
  intros Hi. unfold run.
  destruct (i <? Z.of_nat (length (deref w r))) eqn:E.
  - by rewrite list_setitem_returns by lia.
  - by rewrite list_setitem_raises by lia.
Qed.

(** Two writes into the same list object. *)
Lemma list_setitem_twice (w : world) (r : loc) (i j : Z) (x y : pynum) :
  0 <= i -> 0 <= j ->
  run (list_setitem r j y) (run (list_setitem r i x) w) =
  if i <? Z.of_nat (length (deref w r))
  then if j <? Z.of_nat (length (deref w r))
       then mkWorld
              (<[r := <[Z.to_nat j := y]> (<[Z.to_nat i := x]> (deref w r))]>
                 (objs w))
              (self w) (stdout w) (host w)
       else run (list_setitem r i x) w
  else run (list_setitem r j y) w.
Proof.
  intros Hi Hj. rewrite (run_list_setitem w r i x Hi).
  destruct (i <? Z.of_nat (length (deref w r))) eqn:Ei; [|done].
  rewrite run_list_setitem by assumption.
  assert (r < length (objs w))%nat as Hr by (apply deref_nonempty_valid; lia).
  rewrite deref_insert_same by assumption. rewrite length_insert.
  destruct (j <? Z.of_nat (length (deref w r))) eqn:Ej; [|done].
  simpl. by rewrite list_insert_insert_eq.
Qed.

(** X10. Writes to the frequency list obey the laws of array updates,
    in every state and whether or not a call raises: of two
    [set_frequency] calls on the same channel the later one decides the
    state, and two calls on different channels leave the same state in
    either order. *)
Theorem set_frequency_order (w : world) (c1 c2 : Z) (f1 f2 : pynum) :
  run (set_frequency c1 f2) (run (set_frequency c1 f1) w)
  = run (set_frequency c1 f2) w /\
  (c1 <> c2 ->
   run (set_frequency c2 f2) (run (set_frequency c1 f1) w)
   = run (set_frequency c1 f1) (run (set_frequency c2 f2) w)).
Proof.
  assert (Hrun : forall c f w0,
             run (set_frequency c f) w0 =
             if channel_in_range c (self w0)
             then run (list_setitem (frequencies (self w0)) c f) w0
             else w0).
  { intros c f w0. unfold run. rewrite set_frequency_unfold.
    by destruct (channel_in_range c (self w0)). }
  assert (Hself : forall c f w0, self (run (set_frequency c f) w0) = self w0).
  { intros c f w0. by destruct (keeps_shape_set_frequency c f w0) as (-> & _). }
  split.
  - rewrite (Hrun c1 f2 (run _ w)), Hself. rewrite !Hrun.
    destruct (channel_in_range c1 (self w)) eqn:E1; [|done].
    apply channel_in_range_true in E1.
    rewrite list_setitem_twice by lia. rewrite !run_list_setitem by lia.
    destruct (c1 <? _); [|done].
    by rewrite list_insert_insert_eq.
  - intros Hne.
    rewrite (Hrun c2 f2 (run _ w)), (Hrun c1 f1 (run _ w)), !Hself, !Hrun.
    destruct (channel_in_range c1 (self w)) eqn:E1,
             (channel_in_range c2 (self w)) eqn:E2; try done.
    apply channel_in_range_true in E1, E2.
    rewrite !list_setitem_twice by lia. rewrite !run_list_setitem by lia.
    destruct (c1 <? _), (c2 <? _); try done.
    rewrite list_insert_insert_ne by lia. done.
Qed.

Lemma set_frequency_order_witness :
  let w := snd (init 4 44100 [] [] (Some 16)) in
  run (set_frequency 1 (PyInt 300)) (run (set_frequency 0 (PyInt 200)) w)
  = run (set_frequency 0 (PyInt 200)) (run (set_frequency 1 (PyInt 300)) w).
Proof.
  apply (set_frequency_order (snd (init 4 44100 [] [] (Some 16))) 0 1
           (PyInt 200) (PyInt 300)).
  lia.
Defined.

(** * Further properties of rendering *)

(** ** Writes that keep the entries convertible *)

Lemma writes_within_ret {A} (P : pynum -> Prop) (a : A) :
  writes_within P (ret a).
Proof. intros w r i v Hv. by left. Qed.

Lemma writes_within_bind {A B} (P : pynum -> Prop) (m : py A)
    (k : A -> py B) :
  writes_within P m -> (forall a, writes_within P (k a)) ->
  writes_within P (bind m k).
Proof.
  intros Hm Hk w r i v. specialize (Hm w r i v). unfold run, bind in *.
  destruct (m w) as [[a|e] w1]; simpl in *; [|exact Hm].
  intros Hv. destruct (Hk a w1 r i v Hv) as [Hold|HP]; [|by right].
  by apply Hm.
Qed.

Lemma writes_within_list_setitem (P : pynum -> Prop) (r : loc) (i : Z)
    (x : pynum) :
  P x -> writes_within P (list_setitem r i x).
Proof.
  intros HP w r' k v. unfold run, list_setitem, PyList.setitem.
  destruct ((0 <=? _) && (_ <? _)); simpl; [|by left].
  unfold deref; simpl.
  destruct (decide (r = r')) as [<-|Hne].
  - destruct (objs w !! r) as [l|] eqn:E.
    + rewrite list_lookup_insert_eq by (by eapply lookup_lt_Some).
      simpl.
      set (j := Z.to_nat (if i <? 0 then i + Z.of_nat (length l) else i)).
      destruct (decide (j = k)) as [<-|Hjk].
      * intros Hv. apply list_lookup_insert_Some in Hv as [(_ & <- & _)|[? _]];
          [by right|done].
      * rewrite list_lookup_insert_ne by assumption. by left.
    + rewrite list_insert_ge by (by apply lookup_ge_None).
      rewrite E. by left.
  - rewrite list_lookup_insert_ne by assumption. by left.
Qed.

Lemma writes_within_set_frequency (P : pynum -> Prop) (c : Z) (f : pynum) :
  P f -> writes_within P (set_frequency c f).
Proof.
  intros HP. apply writes_within_bind; [by intros w r i v Hv; left|].
  intros g. destruct (channel_in_range c g);
    [by apply writes_within_list_setitem | apply writes_within_ret].
Qed.

Lemma writes_within_set_amplitude (P : pynum -> Prop) (c : Z) (a : pynum) :
  P a -> writes_within P (set_amplitude c a).
Proof.
  intros HP. apply writes_within_bind; [by intros w r i v Hv; left|].
  intros g. destruct (channel_in_range c g);
    [by apply writes_within_list_setitem | apply writes_within_ret].
Qed.

Lemma writes_within_update_channel (P : pynum -> Prop) (c : Z)
    (fo ao : option pynum) :
  (forall f, fo = Some f -> P f) ->
  (forall a, ao = Some a -> P a) ->
  writes_within P (update_channel c fo ao).
Proof.
  intros Hf Ha. apply writes_within_bind; [by intros w r i v Hv; left|].
  intros g. destruct (channel_in_range c g); [|apply writes_within_ret].
  apply writes_within_bind.
  - destruct fo; [apply writes_within_list_setitem; by apply Hf
                 | apply writes_within_ret].
  - intros _.
    destruct ao; [apply writes_within_list_setitem; by apply Ha
                 | apply writes_within_ret].
Qed.

Section RenderOutcome.

Context {num : Type} `{Float64 num}.

Lemma entries_convert_all (w : world) :
  Forall (fun v => in_range v = true) (deref w (amplitudes (self w))) ->
  Forall (fun v => in_range v = true) (deref w (frequencies (self w))) ->
  entries_convert w.
Proof.
  intros Ha Hf c v _ [Hv|Hv].
  - by apply (Forall_lookup_1 _ _ _ _ Ha Hv).
  - by apply (Forall_lookup_1 _ _ _ _ Hf Hv).
Qed.

(** Writes in place of values that convert keep the entries
    convertible. *)
Lemma entries_convert_after {A} (m : py A) (w : world) :
  keeps_shape m ->
  writes_within (fun v => in_range v = true) m ->
  entries_convert w -> entries_convert (run m w).
Proof.
  intros Hshape Hwr Hconv c v Hc Hv.
  destruct (Hshape w) as (Hs & _). rewrite Hs in Hc, Hv.
  destruct Hv as [Hv|Hv]; apply Hwr in Hv as [Hv|Hv]; try assumption.
  - apply (Hconv c v Hc). by left.
  - apply (Hconv c v Hc). by right.
Qed.

Lemma generate_chunk_negative_width (w : world) (num_frames : Z) :
  available_channels (self w) < 0 ->
  generate_chunk (num := num) num_frames w = (Raise ValueError, w).
Proof.
  intros Hn. rewrite generate_chunk_unfold. unfold np_zeros.
  destruct (available_channels (self w) <? 0) eqn:E; [|lia].
  by rewrite orb_true_r.
Qed.

(** The four ways a call can end, by the state it starts in. *)
Lemma generate_chunk_cases (w : world) (num_frames : Z) :
  (num_frames < 0 \/ available_channels (self w) < 0) /\
    generate_chunk (num := num) num_frames w = (Raise ValueError, w)
  \/
  (0 <= num_frames /\ 0 <= available_channels (self w) /\
   (Z.of_nat (length (deref w (amplitudes (self w))))
      < available_channels (self w) \/
    Z.of_nat (length (deref w (frequencies (self w))))
      < available_channels (self w)) /\
   forall (i : nat) (a f : pynum),
     deref w (amplitudes (self w)) !! i = Some a ->
     deref w (frequencies (self w)) !! i = Some f ->
     in_range a = true /\ in_range f = true) /\
    generate_chunk (num := num) num_frames w = (Raise IndexError, w)
  \/
  (0 <= num_frames /\
   exists (c : nat) (a f : pynum),
     Z.of_nat c < available_channels (self w) /\
     deref w (amplitudes (self w)) !! c = Some a /\
     deref w (frequencies (self w)) !! c = Some f /\
     (in_range a = false \/ in_range f = false)) /\
    generate_chunk (num := num) num_frames w = (Raise OverflowError, w)
  \/
  (0 <= num_frames /\ 0 <= available_channels (self w) /\
   available_channels (self w)
     <= Z.of_nat (length (deref w (amplitudes (self w)))) /\
   available_channels (self w)
     <= Z.of_nat (length (deref w (frequencies (self w)))) /\
   entries_convert w) /\
    exists chunk : list (list num),
      generate_chunk num_frames w = (Return chunk, w).
Proof.
  destruct (Z_lt_dec num_frames 0) as [Hn|Hn].
  { left. split; [by left|]. by apply generate_chunk_negative_frames. }
  destruct (Z_lt_dec (available_channels (self w)) 0) as [Hav|Hav].
  { left. split; [by right|]. by apply generate_chunk_negative_width. }
  right.
  set (t := frame_times (num := num) num_frames (sample_rate (self w))).
  set (z := replicate (Z.to_nat num_frames)
              (replicate (Z.to_nat (available_channels (self w)))
                 (of_int (num := num) 0))).
  assert (Hgen : generate_chunk num_frames w
                 = fill_columns (self w) t
                     (seqZ 0 (available_channels (self w))) z w)
    by (by rewrite generate_chunk_unfold, np_zeros_returns by lia).
  assert (Hpos : Forall (fun i => 0 <= i)
                   (seqZ 0 (available_channels (self w))))
    by (apply Forall_seqZ; intros; lia).
  pose proof (fill_columns_world (self w) t w
                (seqZ 0 (available_channels (self w))) z) as Hw.
  destruct (fill_columns (self w) t (seqZ 0 (available_channels (self w))) z w)
    as [[chunk|e] w'] eqn:Hrun; simpl in Hw; subst w'.
  - right; right.
    pose proof (fill_columns_returned _ _ _ _ Hpos _ _ _ Hrun) as Hall.
    rewrite Forall_seqZ in Hall.
    split; [|by exists chunk].
    split; [lia|]. split; [lia|].
    assert (Hlens :
              available_channels (self w)
                <= Z.of_nat (length (deref w (amplitudes (self w)))) /\
              available_channels (self w)
                <= Z.of_nat (length (deref w (frequencies (self w))))).
    { destruct (Z.eq_dec (available_channels (self w)) 0) as [->|Hne];
        [lia|].
      destruct (Hall (available_channels (self w) - 1)) as [? _]; lia. }
    split; [apply Hlens|]. split; [apply Hlens|].
    intros c v Hc Hv.
    destruct (Hall (Z.of_nat c)) as [_ Hconv]; [lia|].
    apply Hconv. by rewrite Nat2Z.id.
  - destruct (fill_columns_raised _ _ _ _ Hpos _ _ _ Hrun)
      as [[-> (i & Hi & Hbad)]
         | [-> (i & a & f & Hi & Ha' & Hf' & Hbad)]];
      apply elem_of_seqZ in Hi.
    + left. split; [|exact Hgen].
      split; [lia|]. split; [lia|]. split; [lia|].
      intros j a f Ha' Hf'.
      pose proof (lookup_lt_Some _ _ _ Ha') as Hla.
      pose proof (lookup_lt_Some _ _ _ Hf') as Hlf.
      destruct (in_range a) eqn:Ra, (in_range f) eqn:Rf; [done|..].
      all: rewrite (generate_chunk_overflows w num_frames j a f) in Hgen;
        [discriminate | lia | lia | assumption | assumption | auto].
    + right; left. split; [|exact Hgen]. split; [lia|].
      exists (Z.to_nat i), a, f. split; [lia|]. auto.
Qed.

(** What a returned block tells about the state. *)
Lemma generate_chunk_returned (w : world) (num_frames : Z)
    (chunk : list (list num)) :
  result (generate_chunk num_frames) w = Return chunk ->
  0 <= num_frames /\ 0 <= available_channels (self w) /\
  available_channels (self w)
    <= Z.of_nat (length (deref w (amplitudes (self w)))) /\
  available_channels (self w)
    <= Z.of_nat (length (deref w (frequencies (self w)))) /\
  entries_convert w.
Proof.
  unfold result. intros Hret.
  destruct (generate_chunk_cases w num_frames)
    as [[_ Hg] | [[_ Hg] | [[_ Hg] | [Hc _]]]];
    [rewrite Hg in Hret; discriminate.. | exact Hc].
Qed.


(** X12. Writing entries that convert to floats never breaks
    rendering: if [generate_chunk] returns a block in some state, it
    returns a block (of the same shape) after any [update_channel],
    [set_frequency] or [set_amplitude] call that writes floats or ints
    within the range of a float, whether that call returned or
    raised. *)
Theorem setters_keep_rendering (w : world) (num_frames : Z)
    (chunk : list (list num)) (m : py unit) :
  (exists c fo ao, m = update_channel c fo ao /\
                   (forall f, fo = Some f -> in_range f = true) /\
                   (forall a, ao = Some a -> in_range a = true)) \/
  (exists c f, m = set_frequency c f /\ in_range f = true) \/
  (exists c a, m = set_amplitude c a /\ in_range a = true) ->
  result (generate_chunk num_frames) w = Return chunk ->
  exists chunk' : list (list num),
    result (generate_chunk num_frames) (run m w) = Return chunk' /\
    length chunk' = length chunk /\
    Forall (fun row => length row = Z.to_nat (available_channels (self w)))
           chunk'.
Proof.
  intros Hm Hret.
  assert (Hkeep : keeps_shape m /\
                  writes_within (fun v => in_range v = true) m).
  { destruct Hm as [(c & fo & ao & -> & Hf & Ha)
                   | [(c & f & -> & Hf) | (c & a & -> & Ha)]].
    - split; [apply keeps_shape_update_channel
             | by apply writes_within_update_channel].
    - split; [apply keeps_shape_set_frequency
             | by apply writes_within_set_frequency].
    - split; [apply keeps_shape_set_amplitude
             | by apply writes_within_set_amplitude]. }
  destruct Hkeep as [Hshape Hwr].
  destruct (generate_chunk_returned w num_frames chunk Hret)
    as (Hn & Hav & Hla & Hlf & Hconv).
  pose proof (entries_convert_after m w Hshape Hwr Hconv) as Hconv'.
  destruct (Hshape w) as (Hs & _ & Hd).
  unfold result in *.
  destruct (generate_chunk_block w num_frames) as (chunk0 & Hrun & Hlen & _);
    [assumption..|].
  rewrite Hrun in Hret. injection Hret as ->.
  destruct (generate_chunk_block (run m w) num_frames)
    as (chunk' & Hrun' & Hlen' & Hrows' & _);
    rewrite ?Hs, ?Hd; try assumption.
  exists chunk'. rewrite Hrun'. rewrite Hs in Hrows'.
  repeat split; [congruence | assumption].
Qed.

End RenderOutcome.

Lemma setters_keep_rendering_witness :
  let w := snd (init 2 44100 [] [] (Some 16)) in
  exists chunk' : list (list fexpr),
    result (generate_chunk 3) (run (set_frequency 1 (PyInt 880)) w)
    = Return chunk' /\
    length chunk' = 3%nat.
Proof.
  destruct (generate_chunk_block (num := fexpr)
              (snd (init 2 44100 [] [] (Some 16))) 3)
    as (chunk & Hrun & Hlen & _);
    [simpl; lia.. | apply entries_convert_all; by repeat constructor |].
  destruct (setters_keep_rendering (num := fexpr)
              (snd (init 2 44100 [] [] (Some 16))) 3 chunk
              (set_frequency 1 (PyInt 880)))
    as (chunk' & H1 & H2 & _).
  - right; left. by exists 1, (PyInt 880).
  - unfold result. by rewrite Hrun.
  - exists chunk'. split; [exact H1|]. by rewrite H2, Hlen.
Defined.

Section RenderAfterCalls.

Context {num : Type} `{Float64 num}.


(** X14. [set_channels] with a negative count is accepted: it returns
    and leaves two empty lists. Every channel index is then out of
    range for the setters, and [generate_chunk] raises for every frame
    count: ValueError when a device answered (then
    [available_channels] is negative), IndexError, or ValueError for a
    negative frame count, when the fallback 2 was taken. *)
Theorem set_channels_negative (w : world) (m : Z) :
  m < 0 ->
  let w' := run (set_channels m) w in
  result (set_channels m) w = Return tt /\
  deref w' (frequencies (self w')) = [] /\
  deref w' (amplitudes (self w')) = [] /\
  (forall c x, set_frequency c x w' = (Return tt, w') /\
               set_amplitude c x w' = (Return tt, w')) /\
  (forall num_frames : Z,
     result (generate_chunk (num := num) num_frames) w' =
     match host w with
     | Some device_max => Raise ValueError
     | None => if num_frames <? 0 then Raise ValueError else Raise IndexError
     end).
Proof.
  intros Hm w'.
  pose proof (set_channels_frequencies w m) as Hf.
  pose proof (set_channels_amplitudes w m) as Ha.
  fold w' in Hf, Ha. simpl in Hf, Ha.
  replace (Z.to_nat m) with 0%nat in Hf, Ha by lia. simpl in Hf, Ha.
  assert (Hself : num_channels (self w') = m /\
                  available_channels (self w') =
                  match host w with
                  | Some device_max => Z.min device_max m
                  | None => 2
                  end).
  { subst w'. unfold run. by rewrite set_channels_unfold. }
  destruct Hself as [Hnum Hav].
  split; [by unfold result; rewrite set_channels_unfold|].
  split; [exact Hf|]. split; [exact Ha|]. split.
  - intros c x. rewrite set_frequency_unfold, set_amplitude_unfold.
    rewrite (proj2 (channel_in_range_false c (self w'))) by lia. done.
  - intros n. unfold result. destruct (host w) as [d|].
    + rewrite generate_chunk_negative_width by lia. done.
    + destruct (n <? 0) eqn:E.
      * rewrite generate_chunk_negative_frames by lia. done.
      * rewrite generate_chunk_raises; [done | lia | |].
        -- left. rewrite Ha, Hav. simpl. lia.
        -- intros i a f Hx. by rewrite Ha in Hx.
Qed.


(** The block depends on what was printed and on the device in no way. *)
Lemma generate_chunk_ignores_surroundings (w : world) (out : list string)
    (dev : option Z) (num_frames : Z) :
  result (generate_chunk (num := num) num_frames)
         (mkWorld (objs w) (self w) out dev)
  = result (generate_chunk (num := num) num_frames) w.
Proof.
  unfold result. rewrite !generate_chunk_unfold; simpl.
  destruct (np_zeros num_frames (available_channels (self w))); [|done].
  by apply fill_columns_reads_lists.
Qed.

(** X16. [audio_callback] prints the status when there is one, then
    renders. If [generate_chunk] raises, the callback raises the same.
    If it returns a block and [available_channels] is the width of
    [outdata], [outdata] receives that block. If the width differs (the
    stream was opened before [set_channels] changed
    [available_channels]) and [available_channels] is not 1, the
    assignment raises ValueError. In every case the only change of state
    is the printed status. *)
Theorem audio_callback_outcome (w : world) (channels frames : Z)
    (status : option string) :
  let w1 := mkWorld (objs w) (self w)
              (match status with
               | Some s => stdout w ++ [s]
               | None => stdout w
               end) (host w) in
  run (audio_callback (num := num) channels frames status) w = w1 /\
  (forall e,
     result (generate_chunk (num := num) frames) w = Raise e ->
     result (audio_callback channels frames status) w = Raise e) /\
  (forall chunk : list (list num),
     result (generate_chunk frames) w = Return chunk ->
     (available_channels (self w) = channels ->
      result (audio_callback channels frames status) w = Return chunk) /\
     (available_channels (self w) <> channels ->
      available_channels (self w) <> 1 ->
      result (audio_callback channels frames status) w = Raise ValueError)).
Proof.
  intros w1.
  assert (Hprint : (match status with
                    | Some s => print s
                    | None => ret tt
                    end) w = (Return tt, w1)).
  { subst w1. destruct status; [done|]. by destruct w. }
  assert (Hgen : result (generate_chunk (num := num) frames) w1
                 = result (generate_chunk (num := num) frames) w)
    by apply generate_chunk_ignores_surroundings.
  assert (Hsame : run (generate_chunk (num := num) frames) w1 = w1).
  { unfold run. rewrite generate_chunk_unfold.
    destruct (np_zeros frames (available_channels (self w1))); [|done].
    apply fill_columns_world. }
  unfold result, run in *. unfold audio_callback, bind. rewrite Hprint.
  destruct (generate_chunk (num := num) frames w1) as [o w2].
  simpl in Hgen, Hsame. subst w2. rewrite <- Hgen.
  split.
  { destruct o as [chunk|e]; [|done]. unfold get_self, lift. done. }
  split.
  - intros e ->. done.
  - intros chunk ->. unfold get_self, lift, assign_outdata. simpl. split.
    + intros ->. by rewrite Z.eqb_refl.
    + intros Hw H1.
      destruct (available_channels (self w) =? channels) eqn:E1; [lia|].
      destruct (available_channels (self w) =? 1) eqn:E2; [lia|]. done.
Qed.

End RenderAfterCalls.


Lemma set_channels_negative_witness :
  let w := snd (init 4 44100 [] [] (Some 16)) in
  result (generate_chunk (num := fexpr) 8) (run (set_channels (-1)) w)
  = Raise ValueError.
Proof.
  destruct (set_channels_negative (num := fexpr)
              (snd (init 4 44100 [] [] (Some 16))) (-1))
    as (_ & _ & _ & _ & Hg).
  - lia.
  - apply (Hg 8).
Defined.


Lemma audio_callback_outcome_witness :
  let w := run (set_channels 4) (snd (init 2 44100 [] [] (Some 16))) in
  result (audio_callback (num := fexpr) 2 1 None) w = Raise ValueError.
Proof.
  destruct (audio_callback_outcome (num := fexpr)
              (run (set_channels 4) (snd (init 2 44100 [] [] (Some 16))))
              2 1 None) as (_ & _ & H).
  destruct (generate_chunk_block (num := fexpr)
              (run (set_channels 4) (snd (init 2 44100 [] [] (Some 16)))) 1)
    as (chunk & Hrun & _);
    [simpl; lia.. | apply entries_convert_all; by repeat constructor |].
  apply (H chunk).
  - unfold result. by rewrite Hrun.
  - simpl. lia.
  - simpl. lia.
Defined.

(** * Rendering over the reals *)

Lemma sin_period_Z (x : R) (k : Z) :
  sin (x + 2 * IZR k * PI)%R = sin x.
Proof.
  destruct (Z_le_gt_dec 0 k) as [Hk|Hk].
  - rewrite <- (Z2Nat.id k Hk), <- INR_IZR_INZ. apply sin_period.
  - rewrite <- (sin_period (x + 2 * IZR k * PI)%R (Z.to_nat (- k))).
    rewrite INR_IZR_INZ, Z2Nat.id by lia. rewrite opp_IZR.
    f_equal. ring.
Qed.

(** X17. Over the reals and with a sample rate that is not 0, every
    block [generate_chunk] returns starts with a zero in every channel:
    frame 0 is time 0 whatever was rendered before. *)
Theorem block_starts_at_zero (w : world) (num_frames : Z) :
  0 < num_frames ->
  sample_rate (self w) <> 0 ->
  0 <= available_channels (self w) ->
  available_channels (self w)
    <= Z.of_nat (length (deref w (amplitudes (self w)))) ->
  available_channels (self w)
    <= Z.of_nat (length (deref w (frequencies (self w)))) ->
  exists chunk : list (list R),
    generate_chunk num_frames w = (Return chunk, w) /\
    forall c : nat,
      Z.of_nat c < available_channels (self w) ->
      sample_at chunk 0 c = Some 0%R.
Proof.
  intros Hn Hrate Hav Hla Hlf.
  destruct (generate_chunk_block (num := R) w num_frames)
    as (chunk & Hrun & _ & _ & Hpt);
    [lia.. | apply entries_convert_reals |].
  exists chunk. split; [exact Hrun|].
  intros c Hc. rewrite (Hpt 0%nat c) by lia.
  destruct (lookup_lt_is_Some_2 (deref w (amplitudes (self w))) c)
    as [a ->]; [lia|].
  destruct (lookup_lt_is_Some_2 (deref w (frequencies (self w))) c)
    as [fr ->]; [lia|].
  simpl. f_equal. unfold sine_sample; simpl.
  change (Z.of_nat 0) with 0.
  replace (0 / IZR (sample_rate (self w)))%R with 0%R
    by (field; by apply not_0_IZR).
  by rewrite Rmult_0_r, sin_0, Rmult_0_r.
Qed.

Lemma block_starts_at_zero_witness :
  let w := snd (init 2 44100 [] [] (Some 16)) in
  exists chunk : list (list R),
    generate_chunk 4 w = (Return chunk, w) /\
    sample_at chunk 0 1 = Some 0%R.
Proof.
  destruct (block_starts_at_zero (snd (init 2 44100 [] [] (Some 16))) 4)
    as (chunk & H1 & H2).
  - lia.
  - simpl. lia.
  - simpl. lia.
  - simpl. lia.
  - simpl. lia.
  - exists chunk. split; [exact H1|]. apply (H2 1%nat). simpl. lia.
Defined.

(** X18. Over the reals, no sample of a returned block is larger in
    absolute value than the absolute value of its channel's amplitude. *)
Theorem samples_within_amplitude (w : world) (num_frames : Z)
    (chunk : list (list R)) (f c : nat) (a : pynum) :
  result (generate_chunk num_frames) w = Return chunk ->
  Z.of_nat f < num_frames ->
  Z.of_nat c < available_channels (self w) ->
  deref w (amplitudes (self w)) !! c = Some a ->
  exists x : R,
    sample_at chunk f c = Some x /\ (Rabs x <= Rabs (to_num a))%R.
Proof.
  intros Hret Hf Hc Ha.
  destruct (generate_chunk_returned (num := R) w num_frames chunk Hret)
    as (Hn & Hav & Hla & Hlf & Hconv).
  unfold result in Hret.
  destruct (generate_chunk_block (num := R) w num_frames)
    as (chunk0 & Hrun & _ & _ & Hpt); [assumption..|].
  rewrite Hrun in Hret. injection Hret as ->.
  rewrite (Hpt f c Hf Hc), Ha.
  destruct (lookup_lt_is_Some_2 (deref w (frequencies (self w))) c)
    as [fr ->]; [lia|].
  simpl. eexists. split; [reflexivity|].
  unfold sine_sample; simpl. rewrite Rabs_mult.
  rewrite <- (Rmult_1_r (Rabs (to_num a))) at 2.
  apply Rmult_le_compat_l; [apply Rabs_pos|].
  apply Rabs_le. apply SIN_bound.
Qed.

Lemma samples_within_amplitude_witness :
  let w := snd (init 2 44100 [] [] (Some 16)) in
  exists (chunk : list (list R)) (x : R),
    result (generate_chunk 4) w = Return chunk /\
    sample_at chunk 3 1 = Some x /\ (Rabs x <= Rabs (Q2R (1 # 2)))%R.
Proof.
  destruct (generate_chunk_block (num := R)
              (snd (init 2 44100 [] [] (Some 16))) 4)
    as (chunk & Hrun & _);
    [simpl; lia.. | apply entries_convert_reals |].
  assert (Hret : result (generate_chunk 4) (snd (init 2 44100 [] [] (Some 16)))
                 = Return chunk) by (unfold result; by rewrite Hrun).
  destruct (samples_within_amplitude (snd (init 2 44100 [] [] (Some 16))) 4
              chunk 3 1 (PyFloat (1 # 2)) Hret) as (x & H1 & H2).
  - lia.
  - simpl. lia.
  - reflexivity.
  - exists chunk, x. auto.
Defined.

(** X19. Over the reals, restarting time at every block is harmless
    when the frames played before hold whole periods: if a channel has a
    whole-number frequency [z] and [z * start = k * sample_rate] for a
    whole number [k], the samples of the block are those a running frame
    counter starting the block at frame [start] would give. *)
Theorem whole_periods_keep_phase (w : world) (num_frames start z k : Z)
    (chunk : list (list R)) (f c : nat) (a : pynum) :
  result (generate_chunk num_frames) w = Return chunk ->
  sample_rate (self w) <> 0 ->
  Z.of_nat f < num_frames ->
  Z.of_nat c < available_channels (self w) ->
  deref w (amplitudes (self w)) !! c = Some a ->
  deref w (frequencies (self w)) !! c = Some (PyInt z) ->
  z * start = k * sample_rate (self w) ->
  sample_at chunk f c
  = Some (claimed_sample a (PyInt z) start (Z.of_nat f) (sample_rate (self w))).
Proof.
  intros Hret Hrate Hf Hc Ha Hfr Hper.
  destruct (generate_chunk_returned (num := R) w num_frames chunk Hret)
    as (Hn & Hav & Hla & Hlf & Hconv).
  unfold result in Hret.
  destruct (generate_chunk_block (num := R) w num_frames)
    as (chunk0 & Hrun & _ & _ & Hpt); [assumption..|].
  rewrite Hrun in Hret. injection Hret as ->.
  rewrite (Hpt f c Hf Hc), Ha, Hfr. simpl. f_equal.
  unfold sine_sample, claimed_sample; simpl. f_equal.
  rewrite <- (sin_period_Z _ k). f_equal.
  assert (HR : (IZR z * IZR start = IZR k * IZR (sample_rate (self w)))%R)
    by (rewrite <- !mult_IZR; by f_equal).
  rewrite plus_IZR.
  apply not_0_IZR in Hrate.
  apply (Rmult_eq_reg_r (IZR (sample_rate (self w)))); [|assumption].
  field_simplify; [|assumption..].
  replace (2 * PI * IZR z * IZR start)%R
    with (2 * PI * (IZR z * IZR start))%R by ring.
  rewrite HR. ring.
Qed.

Lemma whole_periods_keep_phase_witness :
  let w := run (set_frequency 0 (PyInt 100))
               (snd (init 1 44100 [] [] (Some 16))) in
  exists chunk : list (list R),
    result (generate_chunk 441) w = Return chunk /\
    sample_at chunk 5 0
    = Some (claimed_sample (PyFloat (1 # 2)) (PyInt 100) 441 5 44100).
Proof.
  destruct (generate_chunk_block (num := R)
              (run (set_frequency 0 (PyInt 100))
                   (snd (init 1 44100 [] [] (Some 16)))) 441)
    as (chunk & Hrun & _);
    [simpl; lia.. | apply entries_convert_reals |].
  assert (Hret : result (generate_chunk 441)
                   (run (set_frequency 0 (PyInt 100))
                        (snd (init 1 44100 [] [] (Some 16))))
                 = Return chunk) by (unfold result; by rewrite Hrun).
  exists chunk. split; [exact Hret|].
  apply (whole_periods_keep_phase
           (run (set_frequency 0 (PyInt 100))
                (snd (init 1 44100 [] [] (Some 16))))
           441 441 100 1 chunk 5 0 (PyFloat (1 # 2)) Hret).
  - simpl. lia.
  - lia.
  - simpl. lia.
  - reflexivity.
  - reflexivity.
  - simpl. lia.
Defined.

(** * Playback *)

Lemma is_playing_print (s : string) (w : world) :
  self (run (print s) w) = self w.
Proof. reflexivity. Qed.

Lemma is_playing_set (b : bool) (w : world) :
  is_playing (self (run (set_is_playing b) w)) = b.
Proof. reflexivity. Qed.

Lemma method_body_is_playing (m : method) (w : world) :
  is_playing (self (run (method_body m) w)) = is_playing (self w).
Proof.
  destruct m as [n | c f | c a | c fo ao | fo ao |]; simpl.
  - unfold run. by rewrite set_channels_unfold.
  - by destruct (keeps_shape_set_frequency c f w) as (-> & _).
  - by destruct (keeps_shape_set_amplitude c a w) as (-> & _).
  - by destruct (keeps_shape_update_channel c fo ao w) as (-> & _).
  - unfold run. by rewrite update_all_channels_unfold.
  - reflexivity.
Qed.

Lemma alive_insert_alive (p : player) (w : world) (t : nat) (c c' : thread_pc) :
  threads p !! t = Some c -> c <> Finished -> c' <> Finished ->
  forall t', alive (mkPlayer w (thread p) (<[t := c']> (threads p)) (caller p)) t'
             <-> alive p t'.
Proof.
  intros Ht Hc Hc' t'. unfold alive; simpl.
  destruct (decide (t = t')) as [<-|Hne].
  - rewrite list_lookup_insert_eq by (by eapply lookup_lt_Some).
    split; intros _; eauto.
  - by rewrite list_lookup_insert_ne.
Qed.

Lemma alive_insert_finished (p : player) (w : world) (t : nat) :
  forall t', alive (mkPlayer w (thread p) (<[t := Finished]> (threads p))
                      (caller p)) t'
             <-> alive p t' /\ t' <> t.
Proof.
  intros t'. unfold alive; simpl.
  destruct (decide (t = t')) as [<-|Hne].
  - split.
    + intros (c & Hc & Hfin).
      destruct (decide (t < length (threads p))%nat).
      * rewrite list_lookup_insert_eq in Hc by assumption. congruence.
      * rewrite list_insert_ge in Hc by lia.
        apply lookup_lt_Some in Hc. lia.
    + intros [_ Hne]. done.
  - rewrite list_lookup_insert_ne by assumption.
    split; [intros Ha; split; [exact Ha | congruence] | by intros [Ha _]].
Qed.

(** A step that moves no thread in or out of life and keeps
    [is_playing], [self.thread] and the place of the caller keeps the
    invariant. *)
Lemma driver_inv_same (p p' : player) :
  thread p' = thread p ->
  caller p' = caller p ->
  length (threads p') = length (threads p) ->
  is_playing (self (store p')) = is_playing (self (store p)) ->
  (forall t, alive p' t <-> alive p t) ->
  driver_inv p -> driver_inv p'.
Proof.
  intros Ht Hc Hl Hp Ha (I1 & I2 & I3). unfold driver_inv.
  rewrite Ht, Hc, Hl, Hp. split; [exact I1|]. split.
  - intros t Hal. apply I2. by apply Ha.
  - destruct (caller p).
    + rewrite I3. split; intros [t Hal]; exists t; by apply Ha.
    + destruct I3 as [? Hno]. split; [done|]. intros t Hal. apply (Hno t).
      by apply Ha.
    + destruct I3 as [? Hno]. split; [done|]. intros t Hal. apply (Hno t).
      by apply Ha.
    + exact I3.
Qed.

Section DriverFacts.

Context {num : Type} `{Float64 num}.

(** All [audio_callback] does to the state is print the status. *)
Lemma audio_callback_state (w : world) (channels frames : Z)
    (status : option string) :
  run (audio_callback (num := num) channels frames status) w =
  mkWorld (objs w) (self w)
    (match status with
     | Some s => stdout w ++ [s]
     | None => stdout w
     end) (host w).
Proof.
  set (w1 := mkWorld (objs w) (self w)
               (match status with
                | Some s => stdout w ++ [s]
                | None => stdout w
                end) (host w)).
  assert (Hprint : (match status with
                    | Some s => print s
                    | None => ret tt
                    end) w = (Return tt, w1)).
  { subst w1. destruct status; [done|]. by destruct w. }
  assert (Hsame : run (generate_chunk (num := num) frames) w1 = w1).
  { unfold run. rewrite generate_chunk_unfold.
    destruct (np_zeros frames (available_channels (self w1))); [|done].
    apply fill_columns_world. }
  unfold run in *. unfold audio_callback, bind. rewrite Hprint.
  destruct (generate_chunk (num := num) frames w1) as [[chunk|e] w2];
    simpl in Hsame; subst w2; [|done].
  reflexivity.
Qed.

Lemma thread_step_inv (t : nat) (raises : option string) (p p' : player) :
  thread_step t raises p = Some p' -> driver_inv p -> driver_inv p'.
Proof.
  unfold thread_step. intros Hstep Hinv.
  destruct (threads p !! t) as [c|] eqn:Ht; [|done].
  assert (Hmove : forall w c',
             c <> Finished -> c' <> Finished ->
             is_playing (self w) = is_playing (self (store p)) ->
             driver_inv (mkPlayer w (thread p) (<[t := c']> (threads p))
                           (caller p))).
  { intros w c' Hc Hc' Hw.
    apply (driver_inv_same p); simpl; try done.
    - apply length_insert.
    - by apply (alive_insert_alive p w t c c'). }
  destruct c as [| ch | ch | ch | msg | |].
  - destruct raises; injection Hstep as <-; by apply Hmove.
  - injection Hstep as <-. by apply Hmove.
  - revert Hstep. case (is_playing (self (store p)));
      intros Hstep; injection Hstep as <-; by apply Hmove.
  - destruct raises; injection Hstep as <-; by apply Hmove.
  - injection Hstep as <-. by apply Hmove.
  - injection Hstep as <-.
    destruct Hinv as (I1 & I2 & I3).
    assert (Halive : alive p t) by (exists AtFinally; done).
    pose proof (I2 t Halive) as Hcur.
    assert (Hnone : forall t',
               ~ alive (mkPlayer (run (set_is_playing false) (store p))
                          (thread p) (<[t := Finished]> (threads p))
                          (caller p)) t').
    { intros t' Hal. apply alive_insert_finished in Hal as [Hal Hne].
      apply I2 in Hal. congruence. }
    unfold driver_inv; simpl. rewrite length_insert.
    split; [exact I1|]. split; [intros t' Hal; by destruct (Hnone t')|].
    destruct (caller p).
    + split; [done|]. intros [t' Hal]. by destruct (Hnone t').
    + destruct I3 as [_ Hno]. by destruct (Hno t).
    + destruct I3 as [_ Hno]. by destruct (Hno t).
    + done.
  - done.
Qed.

Lemma do_inv (a : action) (p p' : player) :
  do (num := num) a p = Some p' -> driver_inv p -> driver_inv p'.
Proof.
  destruct a as [| | | | | m | t raises | t frames status]; simpl.
  - unfold start_test. intros Hdo (I1 & I2 & I3).
    destruct (caller p) eqn:Hc; try done.
    destruct (is_playing (self (store p))) eqn:Hp; injection Hdo as <-.
    + unfold driver_inv; simpl. by rewrite Hp.
    + unfold driver_inv; simpl. repeat split; try done.
      intros t Hal. assert (false = true); [|done].
      apply I3. by exists t.
  - unfold start_flag. intros Hdo (I1 & I2 & I3).
    destruct (caller p) eqn:Hc; try done. injection Hdo as <-.
    unfold driver_inv; simpl. destruct I3 as [_ Hno]. done.
  - unfold start_spawn. intros Hdo (I1 & I2 & I3).
    destruct (caller p) eqn:Hc; try done. injection Hdo as <-.
    destruct I3 as [Hp Hno].
    assert (Hnew : forall t,
               alive (mkPlayer (store p) (Some (length (threads p)))
                        (threads p ++ [AtOpen]) Idle) t ->
               t = length (threads p)).
    { intros t (c & Hc' & Hfin). simpl in Hc'.
      destruct (decide (t < length (threads p))%nat) as [Hlt|Hge].
      - rewrite lookup_app_l in Hc' by assumption.
        destruct (Hno t). by exists c.
      - apply lookup_lt_Some in Hc'. rewrite length_app in Hc'.
        simpl in Hc'. lia. }
    unfold driver_inv; simpl. rewrite length_app; simpl. split; [|split].
    + intros t [= <-]. lia.
    + intros t Hal. by rewrite (Hnew t Hal).
    + split; [|done]. intros _. exists (length (threads p)), AtOpen.
      simpl. rewrite lookup_app_r by lia. by rewrite Nat.sub_diag.
  - unfold stop_flag. intros Hdo (I1 & I2 & I3).
    destruct (caller p) eqn:Hc; try done. injection Hdo as <-.
    unfold driver_inv; simpl. done.
  - unfold stop_join. intros Hdo (I1 & I2 & I3).
    destruct (caller p) eqn:Hc; try done.
    assert (Hno : forall t, ~ alive p t).
    { intros t Hal. pose proof (I2 t Hal) as Hcur. rewrite Hcur in Hdo.
      destruct Hal as (c & Hc' & Hfin). rewrite Hc' in Hdo.
      by destruct c. }
    assert (p' = mkPlayer (store p) (thread p) (threads p) Idle) as ->.
    { destruct (thread p) as [t|]; [|by injection Hdo as <-].
      destruct (threads p !! t) as [[]|]; try done. by injection Hdo as <-. }
    unfold driver_inv; simpl. split; [exact I1|]. split; [exact I2|].
    rewrite I3. split; [done|]. intros [t Hal]. by destruct (Hno t).
  - unfold call. intros Hdo Hinv.
    destruct (caller p) eqn:Hc; try done. injection Hdo as <-.
    apply (driver_inv_same p); simpl; try done.
    apply method_body_is_playing.
  - apply thread_step_inv.
  - unfold callback. intros Hdo Hinv.
    assert (Hserve : forall ch,
               driver_inv
                 (mkPlayer (run (audio_callback (num := num) ch frames status)
                               (store p))
                    (thread p) (threads p) (caller p))).
    { intros ch. apply (driver_inv_same p); simpl; try done.
      by rewrite audio_callback_state. }
    destruct (threads p !! t) as [[| ch | ch | ch | msg | |]|];
      try done; injection Hdo as <-; apply Hserve.
Qed.

Lemma playing_driver_inv (p : player) : playing (num := num) p -> driver_inv p.
Proof.
  induction 1 as [n rate heap out dev | p a p' _ IH Hdo].
  - unfold driver_inv, new_player, init; simpl.
    rewrite set_channels_unfold; simpl.
    assert (Hno : forall t,
               ~ alive (mkPlayer
                          (snd (set_channels n
                                  (mkWorld heap
                                     (mkGenerator rate false 0 0%nat 0%nat 0)
                                     out dev))) None [] Idle) t).
    { by intros t (c & Hc & _). }
    rewrite set_channels_unfold in Hno. simpl in Hno.
    repeat split; try done.
    + intros t Hal. by destruct (Hno t).
    + intros [t Hal]. by destruct (Hno t).
  - by apply (do_inv a p p').
Qed.

(** X20. However the controlling thread, the playback threads and the
    audio callbacks are interleaved, from a generator just constructed:
    every thread that has not finished is the one [self.thread] names,
    so at most one playback thread is alive; and while the controlling
    thread is between calls, [is_playing] is True exactly when a
    playback thread is alive. *)
Theorem one_playback_thread (p : player) :
  playing (num := num) p ->
  (forall t, alive p t -> thread p = Some t) /\
  (forall t1 t2, alive p t1 -> alive p t2 -> t1 = t2) /\
  (caller p = Idle ->
   (is_playing (self (store p)) = true <-> exists t, alive p t)).
Proof.
  intros Hp. destruct (playing_driver_inv p Hp) as (I1 & I2 & I3).
  split; [exact I2|]. split.
  - intros t1 t2 H1 H2. apply I2 in H1, H2. congruence.
  - intros Hc. by rewrite Hc in I3.
Qed.

(** X21. When [stop] returns, no playback thread is alive and
    [is_playing] is False, in every interleaving. *)
Theorem stop_returns_stopped (p p' : player) :
  playing (num := num) p ->
  stop_join p = Some p' ->
  caller p' = Idle /\
  is_playing (self (store p')) = false /\
  (forall t, ~ alive p' t) /\
  (forall t c, threads p' !! t = Some c -> c = Finished).
Proof.
  intros Hp Hjoin.
  assert (Hp' : playing (num := num) p')
    by (by apply (playing_do p DoStopJoin p')).
  destruct (playing_driver_inv p Hp) as (_ & _ & I3).
  destruct (playing_driver_inv p' Hp') as (_ & _ & I3').
  unfold stop_join in Hjoin.
  destruct (caller p) eqn:Hc; try done.
  assert (p' = mkPlayer (store p) (thread p) (threads p) Idle) as ->.
  { destruct (thread p) as [t|]; [|by injection Hjoin as <-].
    destruct (threads p !! t) as [[]|]; try done. by injection Hjoin as <-. }
  simpl in *.
  assert (Hno : forall t,
             ~ alive (mkPlayer (store p) (thread p) (threads p) Idle) t).
  { intros t Hal. assert (false = true); [|done].
    rewrite <- I3. apply I3'. by exists t. }
  repeat split; try done.
  intros t c Hc'.
  destruct c; try reflexivity; destruct (Hno t); eexists; by split.
Qed.

(** X22. [stop] on a generator that is not playing changes nothing: in
    a reachable configuration with the controlling thread between calls
    and [is_playing] False, the assignment and the join of [stop] can
    both be taken at once, and lead back to the same configuration. *)
Theorem stop_when_not_playing (p : player) :
  playing (num := num) p ->
  caller p = Idle ->
  is_playing (self (store p)) = false ->
  exists p1, stop_flag p = Some p1 /\ stop_join p1 = Some p.
Proof.
  intros Hp Hc Hplay.
  destruct (playing_driver_inv p Hp) as (I1 & I2 & I3).
  rewrite Hc in I3.
  assert (Hstore : run (set_is_playing false) (store p) = store p).
  { destruct (store p) as [h [r pl n fl al av] out d]. simpl in Hplay.
    by subst pl. }
  unfold stop_flag, stop_join. rewrite Hc, Hstore. eexists. split; [done|].
  simpl.
  assert (Hsame : mkPlayer (store p) (thread p) (threads p) Idle = p).
  { destruct p; simpl in *. by subst. }
  destruct (thread p) as [t|] eqn:Ht; [|by rewrite Hsame].
  destruct (lookup_lt_is_Some_2 (threads p) t (I1 t eq_refl)) as [c Hc'].
  rewrite Hc'.
  destruct c; try (by rewrite Hsame);
    (assert (false = true); [|done]);
    rewrite <- Hplay; apply I3; exists t; eexists; by split.
Qed.

End DriverFacts.

(** X23. Once [is_playing] is False, a playback thread finishes within
    four of its own statements, wherever it stands and whether or not
    the library calls on its way raise; it leaves [is_playing] False. *)
Theorem thread_finishes_after_stop (p : player) (t : nat) (c : thread_pc)
    (r1 r2 r3 r4 : option string) :
  threads p !! t = Some c ->
  is_playing (self (store p)) = false ->
  let p' := thread_steps t [r1; r2; r3; r4] p in
  threads p' !! t = Some Finished /\
  is_playing (self (store p')) = false.
Proof.
  intros Ht Hplay.
  assert (Hlt : (t < length (threads p))%nat) by (by eapply lookup_lt_Some).
  destruct p as [w th ths cl]. simpl in *.
  destruct c, r1, r2, r3, r4;
    simpl; unfold thread_step; simpl;
    rewrite ?Ht, ?Hplay; simpl;
    repeat (rewrite ?list_lookup_insert_eq, ?length_insert, ?Hplay by
              (rewrite ?length_insert; assumption); simpl);
    rewrite ?Ht; try done.
Qed.

Lemma thread_finishes_after_stop_witness :
  let p := mkPlayer (snd (init 2 44100 [] [] (Some 2))) (Some 0%nat)
             [AtSleep 2] Stopping in
  threads (thread_steps 0 [None; None; None; None] p) !! 0%nat
  = Some Finished.
Proof.
  apply (thread_finishes_after_stop
           (mkPlayer (snd (init 2 44100 [] [] (Some 2))) (Some 0%nat)
              [AtSleep 2] Stopping) 0 (AtSleep 2) None None None None);
    reflexivity.
Defined.

Lemma playing_exec {num : Type} `{Float64 num} (schedule : list action)
    (p p' : player) :
  playing (num := num) p -> exec (num := num) schedule p = Some p' ->
  playing (num := num) p'.
Proof.
  revert p. induction schedule as [|a rest IH]; intros p Hp Hex; simpl in Hex.
  - by injection Hex as <-.
  - destruct (do a p) as [p1|] eqn:Hdo; [|done].
    apply (IH p1); [|assumption]. by apply (playing_do p a p1).
Qed.

Lemma one_playback_thread_witness :
  let started := [DoStartTest; DoStartFlag; DoStartSpawn;
                  DoStep 0 None; DoStep 0 None; DoStep 0 None] in
  exists p : player,
    exec (num := fexpr) started (new_player 2 44100 [] [] (Some 2)) = Some p /\
    threads p = [AtSleep 2] /\
    (is_playing (self (store p)) = true <-> exists t, alive p t).
Proof.
  intros started.
  destruct (exec (num := fexpr) started (new_player 2 44100 [] [] (Some 2)))
    as [p|] eqn:Hex; [|by vm_compute in Hex].
  exists p. split; [reflexivity|].
  assert (Hplay : playing (num := fexpr) p).
  { apply (playing_exec started (new_player 2 44100 [] [] (Some 2)));
      [apply playing_new | exact Hex]. }
  vm_compute in Hex. injection Hex as <-.
  split; [reflexivity|].
  by apply (one_playback_thread (num := fexpr) _ Hplay).
Defined.

Lemma stop_returns_stopped_witness :
  let schedule := [DoStartTest; DoStartFlag; DoStartSpawn;
                   DoStep 0 None; DoStep 0 None; DoStep 0 None;
                   DoStopFlag;
                   DoStep 0 None; DoStep 0 None; DoStep 0 None] in
  exists p p' : player,
    exec (num := fexpr) schedule (new_player 2 44100 [] [] (Some 2)) = Some p /\
    stop_join p = Some p' /\
    is_playing (self (store p')) = false /\
    threads p' = [Finished].
Proof.
  intros schedule.
  destruct (exec (num := fexpr) schedule (new_player 2 44100 [] [] (Some 2)))
    as [p|] eqn:Hex; [|by vm_compute in Hex].
  assert (Hplay : playing (num := fexpr) p).
  { apply (playing_exec schedule (new_player 2 44100 [] [] (Some 2)));
      [apply playing_new | exact Hex]. }
  vm_compute in Hex. injection Hex as <-.
  eexists _, _. split; [reflexivity|]. split; [reflexivity|].
  split; [|reflexivity].
  by apply (stop_returns_stopped (num := fexpr) _ _ Hplay).
Defined.

Lemma stop_when_not_playing_witness :
  let p := new_player 2 44100 [] [] (Some 2) in
  exists p1, stop_flag p = Some p1 /\ stop_join p1 = Some p.
Proof.
  apply (stop_when_not_playing (num := fexpr)
           (new_player 2 44100 [] [] (Some 2)));
    [apply playing_new | reflexivity | reflexivity].
Defined.

(** X24. When the stream cannot be opened, the thread prints
    ["Error in audio stream: "] followed by the text of the exception,
    sets [is_playing] to False and finishes, in three statements; it
    changes nothing else of the generator, so [start] can be called
    again. *)
Theorem stream_error_ends_playback (p : player) (t : nat) (message : string)
    (r2 r3 : option string) :
  threads p !! t = Some AtOpen ->
  let p' := thread_steps t [Some message; r2; r3] p in
  threads p' !! t = Some Finished /\
  is_playing (self (store p')) = false /\
  stdout (store p') = stdout (store p) ++ [error_message message] /\
  objs (store p') = objs (store p) /\
  num_channels (self (store p')) = num_channels (self (store p)) /\
  available_channels (self (store p')) = available_channels (self (store p)) /\
  frequencies (self (store p')) = frequencies (self (store p)) /\
  amplitudes (self (store p')) = amplitudes (self (store p)) /\
  thread p' = thread p /\
  caller p' = caller p.
Proof.
  intros Ht.
  assert (Hlt : (t < length (threads p))%nat) by (by eapply lookup_lt_Some).
  destruct p as [w th ths cl]. simpl in *.
  unfold thread_step; simpl. rewrite Ht; simpl.
  rewrite list_lookup_insert_eq by assumption; simpl.
  rewrite list_lookup_insert_eq by (by rewrite length_insert); simpl.
  rewrite list_lookup_insert_eq by (by rewrite !length_insert).
  repeat split.
Qed.

Lemma stream_error_ends_playback_witness :
  let p := mkPlayer (snd (init 2 44100 [] [] (Some 2))) (Some 0%nat)
             [AtOpen] Idle in
  threads (thread_steps 0 [Some "Invalid number of channels"%string; None; None] p)
    !! 0%nat
  = Some Finished.
Proof.
  apply (stream_error_ends_playback
           (mkPlayer (snd (init 2 44100 [] [] (Some 2))) (Some 0%nat)
              [AtOpen] Idle)
           0 "Invalid number of channels"%string None None).
  reflexivity.
Defined.
